(** * ex_pairwise_average.py: the E-LPIPS barycenter experiment

    A shallow embedding of [src/ex_pairwise_average.py]: the checkpoint
    scheduler, the learning-rate schedule, the projection of the decision
    variable, and the script itself as a computation that threads the
    TensorFlow variables and emits the files it writes as a trace.

    Numbers.  Pixel values, distances and losses are rationals ([Q]): every
    operation the script applies to them (clipping, scaling, rounding) is
    exact there, and the definitions evaluate.  The learning rate involves a
    square root and a fractional power and lives in [R].  Rounding of the
    float32 arithmetic and not-a-number values are outside the model. *)

From Stdlib Require Import ZArith QArith Qround Reals Lra Lia.
From Stdlib Require Import Ascii String DecimalString DecimalN.
From Stdlib Require Lqa.
From stdpp Require Import gmap strings list.

Local Open Scope Z_scope.

(** ** Python's [range(start, stop, step)] for a positive step *)

Definition py_range (start stop step : Z) : list Z :=
  (λ k, start + Z.of_nat k * step) <$>
  seq 0 (Z.to_nat ((stop - start + step - 1) `div` step)).

(** ** Checkpoint scheduler (lines 153-157) *)

Definition checkpoints_prefix : list Z :=
  [0; 1; 2; 3; 5; 7; 10; 15; 20; 30; 50; 70; 100; 150; 200; 300; 400; 600;
   900; 1200; 1500].

(** The list after the [for] loop and the final [append]. *)
Definition checkpoints_list (steps : Z) : list Z :=
  (checkpoints_prefix ++ py_range 2000 (1 + steps) 500) ++ [steps].

(** [checkpoints = set(checkpoints)]. *)
Definition checkpoints (steps : Z) : gset Z :=
  list_to_set (checkpoints_list steps).

(** [i not in checkpoints], as the loop tests it. *)
Definition is_checkpoint (steps i : Z) : bool :=
  bool_decide (i ∈ checkpoints steps).

(** ** Strings: [str.lower], [os.path.join], [{:06d}] *)

Definition ascii_lower (c : ascii) : ascii :=
  let n := N_of_ascii c in
  if ((65 <=? n) && (n <=? 90))%N then ascii_of_N (n + 32) else c.

(** [s.lower()] on ASCII text. *)
Fixpoint lower (s : string) : string :=
  match s with
  | EmptyString => EmptyString
  | String c s' => String (ascii_lower c) (lower s')
  end.

Fixpoint ends_with_slash (s : string) : bool :=
  match s with
  | EmptyString => false
  | String c EmptyString => bool_decide (c = "/"%char)
  | String _ s' => ends_with_slash s'
  end.

Definition starts_with_slash (s : string) : bool :=
  match s with
  | String c _ => bool_decide (c = "/"%char)
  | EmptyString => false
  end.

(** [os.path.join(a, b)] of posixpath, for two components. *)
Definition os_path_join (a b : string) : string :=
  if starts_with_slash b then b
  else if bool_decide (a = "") || ends_with_slash a then a +:+ b
  else a +:+ "/" +:+ b.

Fixpoint zeros (n : nat) : string :=
  match n with
  | O => EmptyString
  | S n' => String "0" (zeros n')
  end.

Definition decimal (n : N) : string := NilZero.string_of_uint (N.to_uint n).

Definition zero_pad (width : nat) (s : string) : string :=
  zeros (width - String.length s) +:+ s.

(** ["{:06d}".format(i)]: sign-aware zero padding to six characters. *)
Definition format_06d (i : Z) : string :=
  if i <? 0 then "-" +:+ zero_pad 5 (decimal (Z.to_N (- i)))
  else zero_pad 6 (decimal (Z.to_N i)).

(** Reading a run of decimal digits back, leading zeros allowed. *)
Definition read_decimal (s : string) : option N :=
  N.of_uint <$> NilEmpty.uint_of_string s.

(** ** Arrays: a shape and the elements in row-major order *)

Record ndarray (A : Type) := NdArray { shape : list nat; data : list A }.
Arguments NdArray {A} shape data.
Arguments shape {A} _.
Arguments data {A} _.

Definition ndarray_map {A B} (f : A → B) (a : ndarray A) : ndarray B :=
  NdArray (shape a) (f <$> data a).

Definition product (dims : list nat) : nat := foldr Nat.mul 1%nat dims.

Inductive exn :=
| Exception (msg : string)
| IndexError
| KeyError (key : string)
| TypeError
| ValueError
| NameError
| IOError (path : string).

(** From each of [n] consecutive blocks of [block] elements keep the first
    [keep]. *)
Fixpoint take_of_blocks {A} (n block keep : nat) (l : list A) : list A :=
  match n with
  | O => []
  | S n' => take keep (take block l) ++ take_of_blocks n' block keep (drop block l)
  end.

(** [a[:,:,0:3]]: needs three axes; keeps at most three entries of the
    third. *)
Definition slice_channels {A} (a : ndarray A) : exn + ndarray A :=
  match shape a with
  | d0 :: d1 :: d2 :: rest =>
      let inner := product rest in
      inr (NdArray (d0 :: d1 :: Nat.min d2 3 :: rest)
             (take_of_blocks (d0 * d1) (d2 * inner) (Nat.min d2 3 * inner)
                (data a)))
  | _ => inl IndexError
  end.

(** [np.expand_dims(a, 0)]. *)
Definition expand_dims0 {A} (a : ndarray A) : ndarray A :=
  NdArray (1%nat :: shape a) (data a).

(** [a[0]] and [a[0,:,:,:]]: entry 0 along the first axis.  Every array the
    script indexes this way has the leading axis of length one that
    [expand_dims0] or [randn] gave it. *)
Definition entry0 {A} (a : ndarray A) : ndarray A :=
  NdArray (tail (shape a)) (take (product (tail (shape a))) (data a)).

(** [a.shape[k]] *)
Definition shape_at {A} (a : ndarray A) (k : nat) : exn + nat :=
  match shape a !! k with
  | Some d => inr d
  | None => inl IndexError
  end.

(** [np.asanyarray] of a Python list of equally shaped arrays, as [np.save]
    applies it: the list becomes a new leading axis. *)
Definition np_asanyarray {A} (l : list (ndarray A)) : ndarray A :=
  NdArray (length l :: match l with a :: _ => shape a | [] => [] end)
          (concat (data <$> l)).

(** ** Pixel arithmetic *)

Local Open Scope Q_scope.

Definition TOLERANCE : Q := 1 # 100000.

Definition Qminimum (x y : Q) : Q := if Qle_bool x y then x else y.
Definition Qmaximum (x y : Q) : Q := if Qle_bool y x then x else y.

(** [np.clip] and [tf.clip_by_value] on one element. *)
Definition clip_value (lo hi x : Q) : Q := Qmaximum (Qminimum x hi) lo.

Definition clip (a : ndarray Q) (lo hi : Q) : ndarray Q :=
  ndarray_map (clip_value lo hi) a.

(** [.astype(np.uint8)]: truncation toward zero, then the low eight bits. *)
Definition Qtruncate (x : Q) : Z := if Qle_bool 0 x then Qfloor x else Qceiling x.
Definition astype_uint8 (x : Q) : Z := (Qtruncate x `mod` 256)%Z.

(** [(0.5 + 255.0 * a).astype(np.uint8)] *)
Definition to_uint8_image (a : ndarray Q) : ndarray Z :=
  ndarray_map (λ x, astype_uint8 ((1 # 2) + 255 * x)) a.

(** [tf.cast(tf.floor(255.0 * tf.clip_by_value(x, 0.0, 1.0) + 0.5), tf.uint8)] *)
Definition quantize (x : Q) : Z :=
  (Qfloor (255 * clip_value 0 1 x + (1 # 2)) `mod` 256)%Z.

(** Line 102. *)
Definition tf_X_uint8 (X : ndarray Q) : ndarray Z :=
  entry0 (ndarray_map quantize X).

Definition square (x : Q) : Q := x * x.

Local Close Scope Q_scope.

(** ** Learning-rate schedule (lines 105-112) *)

Local Open Scope R_scope.

(** [x ** y] for a base that is never negative and a positive exponent. *)
Definition tf_pow (x y : R) : R :=
  if Rlt_dec 0 x then Rpower x y else 0.

(** [tf.sqrt(100.0 ** 2 + step ** 2) - 100], on the counter cast to a float. *)
Definition tf_step_f32 (step : Z) : R :=
  sqrt (100 ^ 2 + IZR step ^ 2) - 100.

Definition tf_learning_rate (learning_rate : R) (step : Z) : R :=
  learning_rate / (1 + 0.02 * tf_pow (tf_step_f32 step) 0.75).

Local Close Scope R_scope.

(** ** Effects: the files written, and failure *)

(** Values that flow from [sess.run] and the arrays into printing and file
    output. *)
Inductive value :=
| V_none
| V_float (x : Q)
| V_rate (r : R)
| V_uint8 (a : ndarray Z)
| V_array (a : ndarray Q).

(** What the script does to the outside: files, console, and the call that
    calibrates the metric.  The status line carries the iteration, the
    step count, the loss and the rate; the elapsed wall-clock time it also
    prints is left out. *)
Inductive event :=
| E_makedirs (path : string)
| E_imwrite (path : string) (image : ndarray Z)
| E_np_save (path : string) (arr : ndarray Q)
| E_set_scale_levels (a b : nat)
| E_print (line : string)
| E_print_status (i steps : Z) (loss lr : value).

(** A computation emits events and then returns or raises. *)
Definition M (A : Type) : Type := list event * (exn + A).

Definition trace {A} (m : M A) : list event := m.1.
Definition outcome {A} (m : M A) : exn + A := m.2.

#[export] Instance M_ret : MRet M := λ A a, ([], inr a).
#[export] Instance M_bind : MBind M := λ A B f m,
  match m.2 with
  | inl e => (m.1, inl e)
  | inr a => let r := f a in (m.1 ++ r.1, r.2)
  end.

Definition raise {A} (e : exn) : M A := ([], inl e).
Definition emit (ev : event) : M unit := ([ev], inr tt).
Definition lift {A} (r : exn + A) : M A := ([], r).

(** [for x in l: st = body(x, st)] *)
Fixpoint for_each {A S} (l : list A) (body : A → S → M S) (st : S) : M S :=
  match l with
  | [] => mret st
  | x :: l' => st' ← body x st; for_each l' body st'
  end.

(** ** The command line *)

Record Args := {
  images : string * string;
  outdir : string;
  steps : Z;
  metric : string;
  seed : Z;
  learning_rate : R
}.

(** ** External collaborators

    The libraries the script calls: the file system and image codecs, the
    random generator, the [elpips] metric and TensorFlow's Adam optimizer.
    The metric draws fresh random transformations on every evaluation, so it
    takes the state of its generator. *)

Record metric_config := {
  config_metric : string;
  config_scale_levels : option (nat * nat)
}.

Record Extern := {
  os_path_splitext : string → string * string;
  np_load : string → exn + ndarray Q;
  imageio_imread : string → exn + ndarray Z;
  (** [np.random.randn(d0, d1, d2, d3)] after the optional seeding *)
  np_random_randn : option Z → list nat → list Q;
  (** state of the metric's random transformations *)
  rng : Type;
  rng_init : rng;
  rng_next : rng → rng;
  (** per-sample distances of a candidate to one reference *)
  metric_distance : metric_config → rng → ndarray Q → ndarray Q → list Q;
  (** Adam's moment estimates *)
  slots : Type;
  slots_init : slots;
  (** one update of the variable for a learning rate and a loss *)
  adam_minimize : R → (ndarray Q → Q) → slots → ndarray Q → slots * ndarray Q;
  (** whether, in the run at a given counter value, the read of the counter
      under [tf_learning_rate] executes after [tf_increase_step]; the graph
      does not order the two *)
  rate_reads_increment : Z → bool
}.

(** ** The script *)

Section Script.

Context (ext : Extern) (args : Args).

(** Lines 50-59. *)
Definition load_image (path : string) : exn + ndarray Q :=
  let ext_ := (os_path_splitext ext path).2 in
  if bool_decide (lower ext_ = ".npy") then np_load ext path
  else if bool_decide (lower ext_ ∈ [".png"; ".jpg"]) then
    match imageio_imread ext path with
    | inr image => inr (ndarray_map (λ v, inject_Z v / 255)%Q image)
    | inl e => inl e
    end
  else inl (Exception "Unknown image type.").

(** [load_image(path)[:,:,0:3]] *)
Definition load_rgb (path : string) : M (ndarray Q) :=
  image ← lift (load_image path);
  lift (slice_channels image).

(** Lines 73-75.  The loop variable [image] outlives the loop; it is
    threaded through and returned. *)
Fixpoint check_shapes (shape0 : list nat) (items : list (string * ndarray Q))
    (image : option (ndarray Q)) : M (option (ndarray Q)) :=
  match items with
  | [] => mret image
  | (path, im) :: items' =>
      if bool_decide (shape im ≠ shape0) then
        raise (Exception ("Image '" +:+ path +:+ "' has wrong shape."))
      else check_shapes shape0 items' (Some im)
  end.

(** *** The graph *)

(** Lines 121-130, for the references [ref1] and [ref2] of the tuple
    [tf_images]: the metric maps the tuple to a tuple, and [[0]] takes the
    entry of the only sample of the batch. *)
Definition tf_loss (config : metric_config) (ref1 ref2 : ndarray Q)
    (ω : rng ext) (X : ndarray Q) : Q :=
  let tf_dist1 := metric_distance ext config ω ref1 X in
  let tf_dist2 := metric_distance ext config ω ref2 X in
  let tf_dist1 := hd 0%Q tf_dist1 in
  let tf_dist2 := hd 0%Q tf_dist2 in
  (square tf_dist1 + square tf_dist2)%Q.

(** Line 139: the value [tf_fix_X] assigns to [tf_X]. *)
Definition tf_fix_X (X : ndarray Q) : ndarray Q :=
  clip X TOLERANCE (1 - TOLERANCE)%Q.

(** The variables of the graph.  The counter [tf_step] is a 32-bit integer
    in the graph; it is kept in [Z] here, and a statement about its value
    carries the hypothesis that it stays below 2^31. *)
Record variables := {
  tf_X : ndarray Q;
  tf_step : Z;
  adam_slots : slots ext;
  metric_rng : rng ext
}.

Inductive kernel :=
| K_fix_X | K_minimize | K_loss | K_learning_rate | K_X_uint8 | K_X.

#[export] Instance kernel_eq_dec : EqDecision kernel.
Proof. solve_decision. Defined.

Section Session.

Context (config : metric_config) (ref1 ref2 : ndarray Q).

(** [sess.run(kernels)].  Within one run, tensors are evaluated on the
    variables as they are when the run starts, and the assignments of the
    run ([tf_fix_X], the update of [tf_minimize]) are in effect when it
    returns.  For the loss the graph forces this order, since the update
    consumes its gradient; for the snapshot [tf_X_uint8] it is the order the
    experiment relies on.  The read of the counter under [tf_learning_rate]
    is not ordered with [tf_increase_step], which only [tf_minimize] waits
    for (line 133); [rate_reads_increment] settles it.  The rate is
    evaluated once per run and feeds both the fetch and the optimizer.  The
    script never asks for [tf_fix_X] and [tf_minimize] in one run. *)
Definition sess_run (kernels : list kernel) (v : variables)
    : list value * variables :=
  let training := bool_decide (K_minimize ∈ kernels) in
  let step_read :=
    if training && rate_reads_increment ext (tf_step v)
    then tf_step v + 1 else tf_step v in
  let rate := tf_learning_rate (learning_rate args) step_read in
  let loss := tf_loss config ref1 ref2 (metric_rng v) in
  let fetch k :=
    match k with
    | K_fix_X => V_array (tf_fix_X (tf_X v))
    | K_minimize => V_none
    | K_loss => V_float (loss (tf_X v))
    | K_learning_rate => V_rate rate
    | K_X_uint8 => V_uint8 (tf_X_uint8 (tf_X v))
    | K_X => V_array (tf_X v)
    end in
  let X1 := if bool_decide (K_fix_X ∈ kernels) then tf_fix_X (tf_X v)
            else tf_X v in
  let v' :=
    if training then
      let '(s, X2) := adam_minimize ext rate loss (adam_slots v) X1 in
      {| tf_X := X2; tf_step := tf_step v + 1; adam_slots := s;
         metric_rng := rng_next ext (metric_rng v) |}
    else
      {| tf_X := X1; tf_step := tf_step v; adam_slots := adam_slots v;
         metric_rng := if bool_decide (K_loss ∈ kernels)
                       then rng_next ext (metric_rng v) else metric_rng v |}
  in (fetch <$> kernels, v').

(** The closures [op] of lines 175-192: store under a key, or drop. *)
Definition op_store (key : string) (x : value) (results : gmap string value)
    : gmap string value := <[key := x]> results.
Definition op_pass (x : value) (results : gmap string value)
    : gmap string value := results.

(** [results[key]] *)
Definition results_get (results : gmap string value) (key : string) : M value :=
  match results !! key with
  | Some x => mret x
  | None => raise (KeyError key)
  end.

Definition imageio_imwrite (path : string) (x : value) : M unit :=
  match x with
  | V_uint8 a => emit (E_imwrite path a)
  | _ => raise TypeError
  end.

(** [np.save(path, xs)] for a list of fetched arrays. *)
Definition np_save (path : string) (xs : list value) : M unit :=
  match mapM (λ x, match x with V_array a => Some a | _ => None end) xs with
  | Some arrays => emit (E_np_save path (np_asanyarray arrays))
  | None => raise TypeError
  end.

(** The body of the loop, lines 163-206. *)
Definition iteration (i : Z) (v : variables) : M variables :=
  let v := (sess_run [K_fix_X] v).2 in
  if negb (is_checkpoint (steps args) i) then
    mret (sess_run [K_minimize] v).2
  else
    let kernels := [K_loss; K_learning_rate; K_X_uint8; K_minimize] in
    let ops := [op_store "loss"; op_store "learning_rate";
                op_store "X_uint8"; op_pass] in
    let '(xs, v) := sess_run kernels v in
    let results := foldl (λ results '(x, op), op x results) ∅ (zip xs ops) in
    loss ← results_get results "loss";
    X_uint8 ← results_get results "X_uint8";
    rate ← results_get results "learning_rate";
    emit (E_print_status i (steps args) loss rate);;
    imageio_imwrite (os_path_join (outdir args) (format_06d i +:+ ".png"))
                    X_uint8;;
    if bool_decide (i `mod` 10000 = 0) then
      let '(X, v) := sess_run [K_X] v in
      np_save (os_path_join (outdir args) ("save_" +:+ format_06d i +:+ ".npy")) X;;
      mret v
    else mret v.

(** Lines 162-206. *)
Definition main_loop (v : variables) : M variables :=
  for_each (py_range 0 (1 + steps args) 1) iteration v.

(** *** Vocabulary for statements about a run *)

(** The decision variable after the projection that opens an iteration. *)
Definition projected (v : variables) : ndarray Q := tf_fix_X (tf_X v).

(** The rate of the update that an iteration entered with [v] applies. *)
Definition rate_of (v : variables) : R :=
  tf_learning_rate (learning_rate args)
    (if rate_reads_increment ext (tf_step v) then tf_step v + 1
     else tf_step v).

(** The loss that iteration evaluates and differentiates. *)
Definition loss_of (v : variables) : ndarray Q → Q :=
  tf_loss config ref1 ref2 (metric_rng v).

(** The variables after projection and gradient step. *)
Definition stepped (v : variables) : variables :=
  let u := adam_minimize ext (rate_of v) (loss_of v) (adam_slots v)
             (projected v) in
  {| tf_X := u.2; tf_step := tf_step v + 1; adam_slots := u.1;
     metric_rng := rng_next ext (metric_rng v) |}.

(** The variables on entry to iteration [n], from [v0] on entry to
    iteration 0. *)
Definition variables_at (n : nat) (v0 : variables) : variables :=
  Nat.iter n stepped v0.

Definition snapshot_path (i : Z) : string :=
  os_path_join (outdir args) (format_06d i +:+ ".png").

Definition save_path (i : Z) : string :=
  os_path_join (outdir args) ("save_" +:+ format_06d i +:+ ".npy").

End Session.

Definition supported_metrics : list string :=
  ["elpips_vgg"; "elpips_squeeze_maxpool"; "lpips_vgg"; "lpips_squeeze"].

(** [elpips.get_config] and [set_scale_levels_by_image_size]. *)
Definition get_config (name : string) : metric_config :=
  {| config_metric := name; config_scale_levels := None |}.

Definition set_scale_levels_by_image_size (c : metric_config) (a b : nat)
    : M metric_config :=
  emit (E_set_scale_levels a b);;
  mret {| config_metric := config_metric c;
          config_scale_levels := Some (a, b) |}.

(** The whole script, top to bottom. *)
Definition script : M unit :=
  (* lines 46-47 *)
  (if bool_decide (metric args ∉ supported_metrics)
   then raise (Exception "Unsupported metric.") else mret tt);;
  (* line 63 *)
  emit (E_makedirs (outdir args));;
  (* lines 66-71 *)
  src_image ← load_rgb (images args).1;
  dest_image ← load_rgb (images args).2;
  let images_ := [expand_dims0 src_image; expand_dims0 dest_image] in
  let images0 := expand_dims0 src_image in
  (* lines 73-75 *)
  image ← check_shapes (shape images0)
            (zip [(images args).1; (images args).2] images_) None;
  (* lines 77-78 *)
  emit (E_imwrite (os_path_join (outdir args) "src_image.png")
          (to_uint8_image src_image));;
  emit (E_imwrite (os_path_join (outdir args) "dest_image.png")
          (to_uint8_image dest_image));;
  (* lines 81-82 *)
  let seeded := if bool_decide (0 ≤ seed args) then Some (seed args) else None in
  (* lines 85-87 *)
  d0 ← lift (shape_at images0 0);
  d1 ← lift (shape_at images0 1);
  d2 ← lift (shape_at images0 2);
  d3 ← lift (shape_at images0 3);
  let noise := NdArray [d0; d1; d2; d3]
                 (np_random_randn ext seeded [d0; d1; d2; d3]) in
  let init_image := ndarray_map (λ z, (1 # 2) + (2 # 10) * z)%Q noise in
  let init_image := clip init_image TOLERANCE (1 - TOLERANCE)%Q in
  emit (E_imwrite (os_path_join (outdir args) "initial_image.png")
          (to_uint8_image (entry0 init_image)));;
  (* line 91 *)
  emit (E_print "Creating graph.");;
  (* lines 115-117: [image] is what the loop of line 73 left behind *)
  image ← lift (match image with Some im => inr im | None => inl NameError end);
  a ← lift (shape_at (entry0 image) 1);
  b ← lift (shape_at (entry0 image) 2);
  config ← set_scale_levels_by_image_size (get_config (metric args)) a b;
  (* line 142 *)
  emit (E_print "Starting session.");;
  (* lines 147-206 *)
  let v0 := {| tf_X := init_image; tf_step := 0;
               adam_slots := slots_init ext; metric_rng := rng_init ext |} in
  main_loop config images0 (expand_dims0 dest_image) v0;;
  mret tt.

(** *** Vocabulary for statements about the script *)

(** The image of lines 85-86 for [images[0]] of shape [dims]. *)
Definition initial_image (dims : list nat) : ndarray Q :=
  let seeded := if bool_decide (0 ≤ seed args) then Some (seed args) else None in
  clip (ndarray_map (λ z, (1 # 2) + (2 # 10) * z)%Q
          (NdArray dims (np_random_randn ext seeded dims)))
       TOLERANCE (1 - TOLERANCE)%Q.

(** The variables after [tf.global_variables_initializer()]. *)
Definition initial_variables (dims : list nat) : variables :=
  {| tf_X := initial_image dims; tf_step := 0;
     adam_slots := slots_init ext; metric_rng := rng_init ext |}.

(** The configuration after a calibration with [a] and [b]. *)
Definition calibrated (a b : nat) : metric_config :=
  {| config_metric := metric args; config_scale_levels := Some (a, b) |}.

End Script.

(** The paths of the files written in a trace, in order. *)
Definition written_files (t : list event) : list string :=
  omap (λ ev, match ev with
              | E_imwrite path _ => Some path
              | E_np_save path _ => Some path
              | _ => None
              end) t.

(** The arguments of [set_scale_levels_by_image_size] in a trace. *)
Definition calibrations (t : list event) : list (nat * nat) :=
  omap (λ ev, match ev with
              | E_set_scale_levels a b => Some (a, b)
              | _ => None
              end) t.

(** ** A small instance of the collaborators

    Enough of a world to run the script on: a disk of four [.npy] files, a
    generator that returns zeros, a metric that sums squared differences,
    and an optimizer that moves every element by one tenth. *)

Module Toy.

Definition constant_image (dims : list nat) (x : Q) : ndarray Q :=
  NdArray dims (replicate (product dims) x).

Definition disk (path : string) : exn + ndarray Q :=
  if bool_decide (path = "a.npy") then inr (constant_image [2; 4; 3]%nat (1 # 4))
  else if bool_decide (path = "b.npy") then inr (constant_image [2; 4; 3]%nat (3 # 4))
  else if bool_decide (path = "rgba.npy") then inr (constant_image [2; 2; 4]%nat (1 # 4))
  else if bool_decide (path = "rgb.npy") then inr (constant_image [2; 2; 3]%nat (3 # 4))
  else if bool_decide (path = "small.npy") then inr (constant_image [2; 3; 3]%nat (1 # 4))
  else inl (IOError path).

Definition distance (config : metric_config) (ω : unit) (ref X : ndarray Q)
    : list Q :=
  [foldr Qplus 0%Q (zip_with (λ r x, square (x - r)) (data ref) (data X))].

Definition minimize (rate : R) (loss : ndarray Q → Q) (s : unit)
    (X : ndarray Q) : unit * ndarray Q :=
  (tt, ndarray_map (λ x, Qred (x + (1 # 10))) X).

Definition ext : Extern := {|
  os_path_splitext path := (path, ".npy");
  np_load := disk;
  imageio_imread path := inl (IOError path);
  np_random_randn seeded dims := replicate (product dims) 0%Q;
  rng := unit;
  rng_init := tt;
  rng_next ω := ω;
  metric_distance := distance;
  slots := unit;
  slots_init := tt;
  adam_minimize := minimize;
  rate_reads_increment step := true
|}.

Definition args (image1 image2 : string) (total_steps : Z) : Args := {|
  images := (image1, image2);
  outdir := "out";
  steps := total_steps;
  metric := "elpips_vgg";
  seed := -1;
  learning_rate := 0.03%R
|}.

(** One iteration on two images of height two and width four. *)
Definition args_2x4 : Args := args "a.npy" "b.npy" 0.

(** An image with an alpha channel against one without. *)
Definition args_rgba_rgb : Args := args "rgba.npy" "rgb.npy" 0.

(** Images of different height and width. *)
Definition args_mismatch : Args := args "rgb.npy" "a.npy" 0.

(** Variables, references and configuration for running the loop alone. *)
Definition config : metric_config :=
  {| config_metric := "elpips_vgg"; config_scale_levels := Some (1, 1)%nat |}.

Definition ref1 : ndarray Q := constant_image [1; 1; 1; 3]%nat (1 # 4).
Definition ref2 : ndarray Q := constant_image [1; 1; 1; 3]%nat (3 # 4).

Definition v0 : variables ext := {|
  tf_X := constant_image [1; 1; 1; 3]%nat (1 # 2);
  tf_step := 0;
  adam_slots := tt : slots ext;
  metric_rng := tt : rng ext
|}.

End Toy.

(** ** Further instances, for the failure paths *)

Module Cases.

(** The collaborators of [Toy] with another file system: [splitext] gives
    the extension of a path, [load] and [imread] the array behind it. *)
Definition ext_with (splitext : string → string * string)
    (load : string → exn + ndarray Q) (imread : string → exn + ndarray Z)
    : Extern := {|
  os_path_splitext := splitext;
  np_load := load;
  imageio_imread := imread;
  np_random_randn seeded dims := replicate (product dims) 0%Q;
  rng := unit;
  rng_init := tt;
  rng_next ω := ω;
  metric_distance := Toy.distance;
  slots := unit;
  slots_init := tt;
  adam_minimize := Toy.minimize;
  rate_reads_increment step := true
|}.

(** Every file is a grayscale [.npy] array of two axes. *)
Definition ext_gray : Extern :=
  ext_with (λ path, (path, ".npy"))
           (λ path, inr (Toy.constant_image [2; 2]%nat (1 # 2)))
           (λ path, inl (IOError path)).

(** Every path ends in [.BMP]. *)
Definition ext_bmp : Extern :=
  ext_with (λ path, (path, ".BMP")) Toy.disk (λ path, inl (IOError path)).

(** No file can be read. *)
Definition ext_unreadable : Extern :=
  ext_with (λ path, (path, ".npy")) (λ path, inl (IOError path))
           (λ path, inl (IOError path)).

(** Every file is a [.PNG] of one pixel. *)
Definition ext_png : Extern :=
  ext_with (λ path, (path, ".PNG")) (λ path, inl (IOError path))
           (λ path, inr (NdArray [1; 1; 3]%nat [0; 128; 255])).

(** A metric name the script does not know. *)
Definition args_bad_metric : Args := {|
  images := ("a.npy", "b.npy");
  outdir := "out";
  steps := 0;
  metric := "ssim";
  seed := -1;
  learning_rate := 0.03%R
|}.

(** A negative step count. *)
Definition args_negative : Args := Toy.args "a.npy" "b.npy" (-3).

(** Two steps. *)
Definition args_two_steps : Args := Toy.args "a.npy" "b.npy" 2.

End Cases.

(** * Properties *)

(** ** The definitions on small inputs *)

Example py_range_stride :
  py_range 2000 (1 + 3100) 500 = [2000; 2500; 3000] ∧
  py_range 2000 (1 + 1999) 500 = [] ∧
  py_range 0 (1 + 3) 1 = [0; 1; 2; 3] ∧
  py_range 0 (1 + -1) 1 = [].
Proof. by vm_compute. Qed.

Example checkpoints_list_of_ten :
  checkpoints_list 10 = checkpoints_prefix ++ [10].
Proof. by vm_compute. Qed.

Example format_06d_pads :
  format_06d 0 = "000000" ∧ format_06d 1500 = "001500" ∧
  format_06d 1234567 = "1234567" ∧ format_06d (-5) = "-00005".
Proof. by vm_compute. Qed.

Example os_path_join_cases :
  os_path_join "out" "x.png" = "out/x.png" ∧
  os_path_join "out/" "x.png" = "out/x.png" ∧
  os_path_join "" "x.png" = "x.png" ∧
  os_path_join "out" "/x.png" = "/x.png".
Proof. by vm_compute. Qed.

Example slice_channels_drops_alpha :
  slice_channels (NdArray [2; 2; 4]%nat (seqZ 0 16)) =
  inr (NdArray [2; 2; 3]%nat [0; 1; 2; 4; 5; 6; 8; 9; 10; 12; 13; 14]) ∧
  slice_channels (NdArray [2; 2]%nat (seqZ 0 4)) = inl IndexError.
Proof. by vm_compute. Qed.

Example clip_value_cases :
  clip_value TOLERANCE (1 - TOLERANCE) 0 = TOLERANCE ∧
  clip_value TOLERANCE (1 - TOLERANCE) (-5) = TOLERANCE ∧
  clip_value TOLERANCE (1 - TOLERANCE) (1 # 3) = (1 # 3)%Q ∧
  clip_value TOLERANCE (1 - TOLERANCE) 1 = (1 - TOLERANCE)%Q ∧
  clip_value TOLERANCE (1 - TOLERANCE) 7 = (1 - TOLERANCE)%Q.
Proof. by vm_compute. Qed.

Example quantize_cases :
  quantize 0 = 0 ∧ quantize (1 # 2) = 128 ∧ quantize 1 = 255 ∧
  quantize (-3) = 0 ∧ quantize 7 = 255.
Proof. by vm_compute. Qed.

Lemma elem_of_py_range (start stop step x : Z) :
  0 < step →
  x ∈ py_range start stop step ↔
  start ≤ x < stop ∧ (x - start) `mod` step = 0.
Proof.
  intros Hstep. unfold py_range. rewrite list_elem_of_fmap.
  set (n := (stop - start + step - 1) `div` step).
  split.
  - intros (k & -> & Hk). apply elem_of_seq in Hk.
    assert (Hn : Z.of_nat k < n) by lia.
    assert (Hlt : Z.of_nat k * step < stop - start).
    { destruct (Z_lt_le_dec (Z.of_nat k * step) (stop - start)) as [|Hge];
        [done|exfalso].
      assert (n ≤ Z.of_nat k); [|lia].
      subst n. apply Z.lt_succ_r, Z.div_lt_upper_bound; nia. }
    split; [nia|].
    replace (start + Z.of_nat k * step - start) with (Z.of_nat k * step) by ring.
    apply Z_mod_mult.
  - intros ((Hlo & Hhi) & Hmod).
    apply Z.mod_divide in Hmod as [q Hq]; [|lia].
    assert (0 ≤ q) by nia.
    exists (Z.to_nat q). split; [rewrite Z2Nat.id by done; lia|].
    apply elem_of_seq. split; [lia|]. simpl.
    assert (q + 1 ≤ n); [|lia].
    subst n. apply Z.div_le_lower_bound; [done|]. nia.
Qed.

Lemma elem_of_checkpoints (steps c : Z) :
  c ∈ checkpoints steps ↔
  c ∈ checkpoints_prefix ∨
  (2000 ≤ c ≤ steps ∧ c `mod` 500 = 0) ∨
  c = steps.
Proof.
  unfold checkpoints, checkpoints_list.
  rewrite elem_of_list_to_set, !elem_of_app, elem_of_py_range by done.
  rewrite list_elem_of_singleton.
  assert ((c - 2000) `mod` 500 = 0 ↔ c `mod` 500 = 0) as Hmod.
  { replace c with ((c - 2000) + 4 * 500) at 2 by ring.
    by rewrite Z_mod_plus_full. }
  rewrite Hmod. intuition lia.
Qed.

Lemma elem_of_checkpoints_prefix (c : Z) :
  c ∈ checkpoints_prefix →
  0 ≤ c ≤ 1500.
Proof.
  unfold checkpoints_prefix. rewrite !elem_of_cons, elem_of_nil. lia.
Qed.

Lemma zero_in_checkpoints_prefix : 0 ∈ checkpoints_prefix.
Proof. unfold checkpoints_prefix. apply elem_of_cons. by left. Qed.

Lemma multiple_of_10000_is_checkpoint (total_steps i : Z) :
  0 ≤ i ≤ total_steps → i `mod` 10000 = 0 → i ∈ checkpoints total_steps.
Proof.
  intros Hi Hmod. apply elem_of_checkpoints.
  apply Z.mod_divide in Hmod as [q ->]; [|lia].
  destruct (decide (q = 0)) as [->|Hq].
  - left. apply zero_in_checkpoints_prefix.
  - right; left. split; [lia|].
    replace (q * 10000) with (q * 20 * 500) by ring. apply Z_mod_mult.
Qed.

(** ** Checkpoint scheduler *)

(** C1, as stated, fails for ten steps: the fixed prefix puts 1500 in the
    set, which is outside [0, 10]. *)
Lemma checkpoints_10_not_bounded :
  ¬ (0 ∈ checkpoints 10 ∧ 10 ∈ checkpoints 10 ∧
     ∀ c, c ∈ checkpoints 10 → 0 ≤ c ≤ 10).
Proof.
  intros (_ & _ & Hall).
  assert (1500 ∈ checkpoints 10) as Hin.
  { apply elem_of_checkpoints. left. unfold checkpoints_prefix.
    rewrite !elem_of_cons. lia. }
  apply Hall in Hin. lia.
Qed.

(** C1, amended: for [total_steps >= 0] the checkpoint set contains 0 and
    [total_steps]; every element is at least 0 and at most
    [max total_steps 1500], and an element above [total_steps] is one of the
    fixed prefix indices. *)
Theorem checkpoints_endpoints_and_bounds (total_steps : Z) :
  0 ≤ total_steps →
  0 ∈ checkpoints total_steps ∧
  total_steps ∈ checkpoints total_steps ∧
  ∀ c, c ∈ checkpoints total_steps →
       0 ≤ c ≤ Z.max total_steps 1500 ∧
       (total_steps < c → c ∈ checkpoints_prefix).
Proof.
  intros Hsteps. split; [|split].
  - apply elem_of_checkpoints. left. apply zero_in_checkpoints_prefix.
  - apply elem_of_checkpoints. by right; right.
  - intros c [Hc|[Hc| ->]]%elem_of_checkpoints.
    + pose proof (elem_of_checkpoints_prefix c Hc). split; [lia|done].
    + lia.
    + lia.
Qed.

Lemma checkpoints_endpoints_and_bounds_witness :
  0 ≤ 10 ∧
  0 ∈ checkpoints 10 ∧
  10 ∈ checkpoints 10 ∧
  ∀ c, c ∈ checkpoints 10 →
       0 ≤ c ≤ Z.max 10 1500 ∧ (10 < c → c ∈ checkpoints_prefix).
Proof. split; [lia|]. apply (checkpoints_endpoints_and_bounds 10). lia. Defined.

(** C2, as stated, fails from four steps to five: 4 is a checkpoint of a
    run of four steps only as its final index, and a run of five steps does
    not have it. *)
Lemma checkpoints_4_5_not_monotone :
  ¬ (4 ≤ 5 → 4 ≤ 4 → 4 ∈ checkpoints 4 → 4 ∈ checkpoints 5).
Proof.
  intros Hmono.
  assert (4 ∈ checkpoints 5) as Hin.
  { apply Hmono; [lia|lia|].
    apply elem_of_checkpoints. by right; right. }
  apply elem_of_checkpoints in Hin as [Hin|[Hin|Hin]]; [|lia|lia].
  revert Hin. unfold checkpoints_prefix.
  rewrite !elem_of_cons, elem_of_nil. lia.
Qed.

(** C2, amended: for [s1 <= s2], a checkpoint [c <= s1] of a run of [s1]
    steps is a checkpoint of a run of [s2] steps exactly when [c < s1], or
    [s1 = s2], or [s1] is in the fixed prefix, or [s1] is a multiple of 500
    from 2000 on.  In particular every checkpoint below [s1] is kept. *)
Theorem checkpoints_coverage (s1 s2 c : Z) :
  s1 ≤ s2 → c ≤ s1 → c ∈ checkpoints s1 →
  (c ∈ checkpoints s2 ↔
   c < s1 ∨ s1 = s2 ∨ s1 ∈ checkpoints_prefix ∨
   (2000 ≤ s1 ∧ s1 `mod` 500 = 0)).
Proof.
  intros Hle Hc Hin. rewrite elem_of_checkpoints in Hin.
  rewrite elem_of_checkpoints.
  destruct (decide (c = s1)) as [->|Hne]; [|intuition lia].
  intuition lia.
Qed.

Lemma checkpoints_coverage_witness :
  4 ≤ 7 ∧ 3 ≤ 4 ∧ 3 ∈ checkpoints 4 ∧
  (3 ∈ checkpoints 7 ↔
   3 < 4 ∨ 4 = 7 ∨ 4 ∈ checkpoints_prefix ∨ (2000 ≤ 4 ∧ 4 `mod` 500 = 0)).
Proof.
  assert (3 ∈ checkpoints 4) as Hin.
  { apply elem_of_checkpoints. left. unfold checkpoints_prefix.
    rewrite !elem_of_cons. lia. }
  split; [lia|]. split; [lia|]. split; [done|].
  apply (checkpoints_coverage 4 7 3); [lia|lia|done].
Defined.

(** ** Learning-rate schedule *)

Local Open Scope R_scope.

Lemma tf_step_f32_nonneg (step : Z) : 0 <= tf_step_f32 step.
Proof.
  unfold tf_step_f32.
  assert (100 <= sqrt (100 ^ 2 + IZR step ^ 2)); [|lra].
  rewrite <- (sqrt_pow2 100) at 1 by lra.
  apply sqrt_le_1_alt. pose proof (pow2_ge_0 (IZR step)). lra.
Qed.

Lemma tf_step_f32_mono (i j : Z) :
  (0 ≤ i)%Z → (i ≤ j)%Z → tf_step_f32 i <= tf_step_f32 j.
Proof.
  intros Hi Hij. unfold tf_step_f32.
  apply Rplus_le_compat_r, sqrt_le_1_alt, Rplus_le_compat_l.
  apply pow_incr. split; [apply IZR_le, Hi|apply IZR_le, Hij].
Qed.

Lemma tf_pow_nonneg (x y : R) : 0 <= tf_pow x y.
Proof.
  unfold tf_pow. destruct (Rlt_dec 0 x); [|lra].
  unfold Rpower. left. apply exp_pos.
Qed.

Lemma tf_pow_mono (x1 x2 y : R) :
  0 <= y → 0 <= x1 → x1 <= x2 → tf_pow x1 y <= tf_pow x2 y.
Proof.
  intros Hy Hx1 Hx. unfold tf_pow at 1.
  destruct (Rlt_dec 0 x1) as [Hpos|Hzero]; [|apply tf_pow_nonneg].
  unfold tf_pow. destruct (Rlt_dec 0 x2); [|lra].
  apply Rle_Rpower_l; [done|lra].
Qed.



Local Close Scope R_scope.

(** ** File names *)

Lemma read_decimal_zero (s : string) :
  read_decimal (String "0" s) = read_decimal s.
Proof.
  unfold read_decimal. simpl.
  by destruct (NilEmpty.uint_of_string s).
Qed.

Lemma read_decimal_zeros (k : nat) (s : string) :
  read_decimal (zeros k +:+ s) = read_decimal s.
Proof.
  induction k as [|k IH]; [done|].
  change (zeros (S k) +:+ s) with (String "0" (zeros k +:+ s)).
  by rewrite read_decimal_zero.
Qed.

Lemma read_decimal_decimal (n : N) : read_decimal (decimal n) = Some n.
Proof.
  unfold read_decimal, decimal.
  rewrite <- (DecimalN.Unsigned.of_to n) at 2.
  destruct (N.to_uint n) as [| | | | | | | | | |] eqn:Hd;
    [done|unfold NilZero.string_of_uint; by rewrite NilEmpty.usu..].
Qed.

Lemma read_format_06d (i : Z) :
  0 ≤ i → read_decimal (format_06d i) = Some (Z.to_N i).
Proof.
  intros Hi. unfold format_06d, zero_pad.
  destruct (Z.ltb_spec i 0) as [|_]; [lia|].
  by rewrite read_decimal_zeros, read_decimal_decimal.
Qed.

Lemma format_06d_inj (i j : Z) :
  0 ≤ i → 0 ≤ j → format_06d i = format_06d j → i = j.
Proof.
  intros Hi Hj Heq.
  assert (Some (Z.to_N i) = Some (Z.to_N j)) as [=]; [|lia].
  by rewrite <- !read_format_06d, Heq.
Qed.

Lemma decimal_head (n : N) :
  ∃ c s, decimal n = String c s.
Proof.
  unfold decimal.
  destruct (N.to_uint n) as [| | | | | | | | | |]; simpl; eauto.
Qed.

Lemma format_06d_relative (i : Z) (suffix : string) :
  0 ≤ i → starts_with_slash (format_06d i +:+ suffix) = false.
Proof.
  intros Hi. pose proof (read_format_06d i Hi) as Hread.
  destruct (format_06d i) as [|c s] eqn:Hfmt.
  - exfalso. revert Hfmt. unfold format_06d, zero_pad.
    destruct (Z.ltb_spec i 0) as [|_]; [lia|].
    destruct (decimal_head (Z.to_N i)) as (c & s & ->).
    by destruct (6 - _)%nat.
  - simpl. apply bool_decide_eq_false. intros ->.
    unfold read_decimal in Hread. simpl in Hread.
    by destruct (NilEmpty.uint_of_string s).
Qed.

Lemma list_ascii_of_string_app (s t : string) :
  list_ascii_of_string (s +:+ t) =
  list_ascii_of_string s ++ list_ascii_of_string t.
Proof. induction s as [|c s IH]; simpl; [done|by rewrite IH]. Qed.

Lemma string_app_inj_r (s1 s2 t : string) :
  s1 +:+ t = s2 +:+ t → s1 = s2.
Proof.
  intros Heq%(f_equal list_ascii_of_string).
  rewrite !list_ascii_of_string_app in Heq.
  apply app_inv_tail in Heq.
  by rewrite <- (string_of_list_ascii_of_string s1),
             <- (string_of_list_ascii_of_string s2), Heq.
Qed.

Lemma os_path_join_inj (a b1 b2 : string) :
  starts_with_slash b1 = false → starts_with_slash b2 = false →
  os_path_join a b1 = os_path_join a b2 → b1 = b2.
Proof.
  unfold os_path_join. intros -> ->.
  destruct (_ || _); intros Heq.
  - by apply String.app_inj in Heq.
  - by do 2 apply String.app_inj in Heq.
Qed.

Lemma snapshot_path_inj (args : Args) (i j : Z) :
  0 ≤ i → 0 ≤ j → snapshot_path args i = snapshot_path args j → i = j.
Proof.
  intros Hi Hj Heq. unfold snapshot_path in Heq.
  apply os_path_join_inj in Heq; [|by apply format_06d_relative..].
  apply string_app_inj_r in Heq. by apply format_06d_inj.
Qed.

Lemma save_path_inj (args : Args) (i j : Z) :
  0 ≤ i → 0 ≤ j → save_path args i = save_path args j → i = j.
Proof.
  intros Hi Hj Heq. unfold save_path in Heq.
  apply os_path_join_inj in Heq; [|done..].
  apply (String.app_inj "save_") in Heq.
  apply string_app_inj_r in Heq. by apply format_06d_inj.
Qed.

(** ** The effect monad *)

Lemma bind_raise {A B} (m : M A) (f : A → M B) (e : exn) :
  outcome m = inl e → m ≫= f = (trace m, inl e).
Proof. unfold outcome, trace, mbind, M_bind. by intros ->. Qed.

Lemma bind_return {A B} (m : M A) (f : A → M B) (a : A) :
  outcome m = inr a → m ≫= f = (trace m ++ trace (f a), outcome (f a)).
Proof. unfold outcome, trace, mbind, M_bind. by intros ->. Qed.

Lemma ret_bind {A B} (a : A) (f : A → M B) : mret a ≫= f = f a.
Proof. unfold mbind, M_bind, mret, M_ret. simpl. by destruct (f a). Qed.

Lemma elem_of_trace_bind {A B} (m : M A) (f : A → M B) (ev : event) :
  ev ∈ trace (m ≫= f) →
  ev ∈ trace m ∨ ∃ a, outcome m = inr a ∧ ev ∈ trace (f a).
Proof.
  destruct (outcome m) as [e|a] eqn:Hm.
  - rewrite (bind_raise _ _ _ Hm). by left.
  - rewrite (bind_return _ _ _ Hm). simpl. rewrite elem_of_app.
    intros [?|?]; [by left|right; eauto].
Qed.

(** ** One iteration *)

Section Iteration.

Context (ext : Extern) (args : Args).
Context (config : metric_config) (ref1 ref2 : ndarray Q).

Local Abbreviation iteration := (iteration ext args config ref1 ref2).
Local Abbreviation main_loop := (main_loop ext args config ref1 ref2).
Local Abbreviation stepped := (stepped ext args config ref1 ref2).
Local Abbreviation variables_at := (variables_at ext args config ref1 ref2).
Local Abbreviation projected := (projected ext).
Local Abbreviation rate_of := (rate_of ext args).
Local Abbreviation loss_of := (loss_of ext config ref1 ref2).
Local Abbreviation sess_run := (sess_run ext args config ref1 ref2).
Local Abbreviation snapshot_path := (snapshot_path args).
Local Abbreviation save_path := (save_path args).

Lemma sess_run_fix_X (v : variables ext) :
  (sess_run [K_fix_X] v).2 =
  {| tf_X := projected v; tf_step := tf_step ext v;
     adam_slots := adam_slots ext v; metric_rng := metric_rng ext v |}.
Proof. done. Qed.

Lemma sess_run_minimize (v : variables ext) :
  (sess_run [K_minimize] (sess_run [K_fix_X] v).2).2 = stepped v.
Proof.
  rewrite sess_run_fix_X. unfold sess_run, stepped; simpl.
  by destruct (adam_minimize _ _ _ _ _).
Qed.

Lemma sess_run_kernels (v : variables ext) :
  sess_run [K_loss; K_learning_rate; K_X_uint8; K_minimize]
           (sess_run [K_fix_X] v).2 =
  ([V_float (loss_of v (projected v)); V_rate (rate_of v);
    V_uint8 (tf_X_uint8 (projected v)); V_none], stepped v).
Proof.
  rewrite sess_run_fix_X. unfold sess_run, stepped; simpl.
  by destruct (adam_minimize _ _ _ _ _).
Qed.

Lemma iteration_plain (i : Z) (v : variables ext) :
  is_checkpoint (steps args) i = false →
  iteration i v = ([], inr (stepped v)).
Proof.
  intros Hcp. unfold iteration. rewrite Hcp. cbv zeta.
  by rewrite sess_run_minimize.
Qed.

Lemma iteration_checkpoint (i : Z) (v : variables ext) :
  is_checkpoint (steps args) i = true →
  iteration i v =
  ([E_print_status i (steps args) (V_float (loss_of v (projected v)))
      (V_rate (rate_of v));
    E_imwrite (snapshot_path i) (tf_X_uint8 (projected v))] ++
   (if bool_decide (i `mod` 10000 = 0)
    then [E_np_save (save_path i) (np_asanyarray [tf_X ext (stepped v)])]
    else []),
   inr (stepped v)).
Proof.
  intros Hcp. unfold iteration. rewrite Hcp. cbv zeta.
  rewrite sess_run_kernels. cbn [negb foldl zip zip_with].
  unfold op_store, op_pass, results_get.
  rewrite (lookup_insert_ne _ "X_uint8" "loss") by discriminate.
  rewrite (lookup_insert_ne _ "learning_rate" "loss") by discriminate.
  rewrite (lookup_insert_ne _ "X_uint8" "learning_rate") by discriminate.
  rewrite !lookup_insert_eq.
  rewrite !ret_bind.
  case_bool_decide; done.
Qed.

Lemma iteration_outcome (i : Z) (v : variables ext) :
  outcome (iteration i v) = inr (stepped v).
Proof.
  destruct (is_checkpoint (steps args) i) eqn:Hcp.
  - by rewrite iteration_checkpoint.
  - by rewrite iteration_plain.
Qed.

Lemma py_range_from_zero (n : Z) :
  py_range 0 n 1 = Z.of_nat <$> seq 0 (Z.to_nat n).
Proof.
  unfold py_range. replace (n - 0 + 1 - 1) with n by lia.
  rewrite Z.div_1_r. apply list_fmap_ext. intros _ k _. lia.
Qed.

(** The loop over the indices [a, a + n), entered with the variables that
    [a] iterations produce. *)
Lemma for_each_seq_cons (a n : nat) (v0 : variables ext) :
  for_each (Z.of_nat <$> seq a (S n)) iteration (variables_at a v0) =
  (trace (iteration (Z.of_nat a) (variables_at a v0)) ++
   trace (for_each (Z.of_nat <$> seq (S a) n) iteration (variables_at (S a) v0)),
   outcome (for_each (Z.of_nat <$> seq (S a) n) iteration
              (variables_at (S a) v0))).
Proof.
  cbn [seq fmap list_fmap for_each].
  by rewrite (bind_return _ _ _ (iteration_outcome _ _)).
Qed.

Lemma for_each_seq_trace (a n : nat) (v0 : variables ext) :
  trace (for_each (Z.of_nat <$> seq a (S n)) iteration (variables_at a v0)) =
  trace (iteration (Z.of_nat a) (variables_at a v0)) ++
  trace (for_each (Z.of_nat <$> seq (S a) n) iteration (variables_at (S a) v0)).
Proof. by rewrite for_each_seq_cons. Qed.

Lemma for_each_seq_outcome (a n : nat) (v0 : variables ext) :
  outcome (for_each (Z.of_nat <$> seq a n) iteration (variables_at a v0)) =
  inr (variables_at (a + n) v0).
Proof.
  revert a. induction n as [|n IH]; intros a.
  - by rewrite Nat.add_0_r.
  - rewrite for_each_seq_cons. unfold outcome at 1. cbn [snd].
    rewrite IH. do 2 f_equal. lia.
Qed.

Lemma for_each_seq_split (a n k : nat) (v0 : variables ext) :
  (a ≤ k < a + n)%nat →
  ∃ before after,
    trace (for_each (Z.of_nat <$> seq a n) iteration (variables_at a v0)) =
    before ++ trace (iteration (Z.of_nat k) (variables_at k v0)) ++ after.
Proof.
  revert a. induction n as [|n IH]; intros a Hk; [lia|].
  rewrite for_each_seq_trace.
  destruct (decide (k = a)) as [->|Hne].
  - by exists [], (trace (for_each (Z.of_nat <$> seq (S a) n) iteration
                        (variables_at (S a) v0))).
  - destruct (IH (S a)) as (before & after & ->); [lia|].
    exists (trace (iteration (Z.of_nat a) (variables_at a v0)) ++ before), after.
    by rewrite <- app_assoc.
Qed.

Lemma elem_of_for_each_seq (a n : nat) (v0 : variables ext) (ev : event) :
  ev ∈ trace (for_each (Z.of_nat <$> seq a n) iteration (variables_at a v0)) →
  ∃ k, (a ≤ k < a + n)%nat ∧
       ev ∈ trace (iteration (Z.of_nat k) (variables_at k v0)).
Proof.
  revert a. induction n as [|n IH]; intros a.
  - simpl. by intros ?%elem_of_nil.
  - rewrite for_each_seq_trace.
    intros [Hev|Hev]%elem_of_app.
    + exists a. split; [lia|done].
    + destruct (IH _ Hev) as (k & Hk & Hin). exists k. split; [lia|done].
Qed.

Lemma main_loop_outcome (v0 : variables ext) :
  outcome (main_loop v0) = inr (variables_at (Z.to_nat (1 + steps args)) v0).
Proof.
  unfold main_loop. rewrite py_range_from_zero.
  apply (for_each_seq_outcome 0).
Qed.

Lemma main_loop_split (v0 : variables ext) (i : Z) :
  0 ≤ i ≤ steps args →
  ∃ before after,
    trace (main_loop v0) =
    before ++ trace (iteration i (variables_at (Z.to_nat i) v0)) ++ after.
Proof.
  intros Hi. unfold main_loop. rewrite py_range_from_zero.
  destruct (for_each_seq_split 0 (Z.to_nat (1 + steps args)) (Z.to_nat i) v0)
    as (before & after & Heq); [lia|].
  rewrite Z2Nat.id in Heq by lia. eauto.
Qed.

Lemma elem_of_main_loop (v0 : variables ext) (ev : event) :
  ev ∈ trace (main_loop v0) →
  ∃ i, 0 ≤ i ≤ steps args ∧
       ev ∈ trace (iteration i (variables_at (Z.to_nat i) v0)).
Proof.
  unfold main_loop. rewrite py_range_from_zero.
  intros (k & Hk & Hin)%(elem_of_for_each_seq 0).
  exists (Z.of_nat k). rewrite Nat2Z.id. split; [lia|done].
Qed.

Lemma elem_of_iteration (i : Z) (v : variables ext) (ev : event) :
  ev ∈ trace (iteration i v) →
  i ∈ checkpoints (steps args) ∧
  (ev = E_print_status i (steps args) (V_float (loss_of v (projected v)))
          (V_rate (rate_of v)) ∨
   ev = E_imwrite (snapshot_path i) (tf_X_uint8 (projected v)) ∨
   (i `mod` 10000 = 0 ∧
    ev = E_np_save (save_path i) (np_asanyarray [tf_X ext (stepped v)]))).
Proof.
  destruct (is_checkpoint (steps args) i) eqn:Hcp.
  - rewrite iteration_checkpoint by done. unfold trace; cbn [fst].
    apply bool_decide_eq_true in Hcp. intros Hin. split; [done|].
    revert Hin. case_bool_decide; cbn [app];
      rewrite !elem_of_cons, elem_of_nil; tauto.
  - rewrite iteration_plain by done. by intros ?%elem_of_nil.
Qed.

Lemma projected_in_range (X : ndarray Q) :
  Forall (λ x, TOLERANCE <= x <= 1 - TOLERANCE)%Q (data (tf_fix_X X)).
Proof.
  unfold tf_fix_X, clip, ndarray_map; simpl.
  apply Forall_fmap, Forall_true. intros x.
  unfold compose, clip_value, Qmaximum, Qminimum.
  destruct (Qle_bool x (1 - TOLERANCE)) eqn:Hhi.
  - destruct (Qle_bool TOLERANCE x) eqn:Hlo.
    + by split; apply Qle_bool_iff.
    + split; [apply Qle_refl|by apply Qle_bool_iff].
  - replace (Qle_bool TOLERANCE (1 - TOLERANCE)) with true by done.
    split; [by apply Qle_bool_iff|apply Qle_refl].
Qed.

(** C3, amended: on a checkpoint iteration [i] the loss that is printed and
    the 8-bit image written to [{i:06d}.png] are evaluated on the decision
    variable after that iteration's projection and before its gradient
    step; the printed rate is the rate of that iteration's update; the raw
    array written to [save_{i:06d}.npy] on multiples of 10000 is fetched by
    a run of its own after the update and holds the variable after that
    iteration's gradient step. *)
Theorem checkpoint_output_order (v0 : variables ext) (i : Z) :
  0 ≤ i ≤ steps args →
  i ∈ checkpoints (steps args) →
  let v := variables_at (Z.to_nat i) v0 in
  tf_X ext (stepped v) =
    (adam_minimize ext (rate_of v) (loss_of v) (adam_slots ext v)
       (projected v)).2 ∧
  ∃ before after,
    trace (main_loop v0) =
    before ++
    ([E_print_status i (steps args) (V_float (loss_of v (projected v)))
        (V_rate (rate_of v));
      E_imwrite (snapshot_path i) (tf_X_uint8 (projected v))] ++
     (if bool_decide (i `mod` 10000 = 0)
      then [E_np_save (save_path i) (np_asanyarray [tf_X ext (stepped v)])]
      else [])) ++
    after.
Proof.
  intros Hi Hcp v. split; [done|].
  destruct (main_loop_split v0 i Hi) as (before & after & ->).
  exists before, after. subst v.
  by rewrite iteration_checkpoint by by apply bool_decide_eq_true.
Qed.

(** C5: whatever the values before it, the projection leaves every element
    of X in [TOLERANCE, 1 - TOLERANCE]; and every iteration, entered with
    any variables, evaluates the loss and takes its gradient step on the
    projected X. *)
Theorem projection_bounds (X : ndarray Q) (i : Z) (v : variables ext) :
  Forall (λ x, TOLERANCE <= x <= 1 - TOLERANCE)%Q (data (tf_fix_X X)) ∧
  length (data (tf_fix_X X)) = length (data X) ∧
  Forall (λ x, TOLERANCE <= x <= 1 - TOLERANCE)%Q (data (projected v)) ∧
  outcome (iteration i v) = inr (stepped v) ∧
  tf_X ext (stepped v) =
    (adam_minimize ext (rate_of v) (loss_of v) (adam_slots ext v)
       (projected v)).2 ∧
  (∀ ev loss rate, ev ∈ trace (iteration i v) →
     ev = E_print_status i (steps args) loss rate →
     loss = V_float (loss_of v (projected v))).
Proof.
  split; [apply projected_in_range|].
  split; [apply length_fmap|].
  split; [apply projected_in_range|].
  split; [apply iteration_outcome|].
  split; [done|].
  intros ev loss rate (_ & [->|[->| [_ ->]]])%elem_of_iteration Heq;
    [|discriminate..].
  injection Heq; intros; by subst.
Qed.

(** C7: in every iteration the loss that is minimized is [d1^2 + d2^2],
    where [d1] and [d2] are entry 0 of the distance vectors that the metric
    returns for the first and the second reference against X; the same
    value is the loss a checkpoint reports. *)
Theorem loss_is_sum_of_squares (i : Z) (v : variables ext) :
  let d1 X := hd 0%Q (metric_distance ext config (metric_rng ext v) ref1 X) in
  let d2 X := hd 0%Q (metric_distance ext config (metric_rng ext v) ref2 X) in
  (∀ X, loss_of v X = (d1 X * d1 X + d2 X * d2 X)%Q) ∧
  outcome (iteration i v) = inr (stepped v) ∧
  tf_X ext (stepped v) =
    (adam_minimize ext (rate_of v)
       (λ X, (d1 X * d1 X + d2 X * d2 X)%Q) (adam_slots ext v)
       (projected v)).2 ∧
  (∀ ev loss rate, ev ∈ trace (iteration i v) →
     ev = E_print_status i (steps args) loss rate →
     loss = V_float (d1 (projected v) * d1 (projected v) +
                     d2 (projected v) * d2 (projected v))%Q).
Proof.
  intros d1 d2.
  split; [done|].
  split; [apply iteration_outcome|].
  split; [done|].
  intros ev loss rate (_ & [->|[->| [_ ->]]])%elem_of_iteration Heq;
    [|discriminate..].
  injection Heq; intros; by subst.
Qed.

Lemma imwrite_in_main_loop (v0 : variables ext) (path : string)
    (image : ndarray Z) :
  E_imwrite path image ∈ trace (main_loop v0) →
  ∃ i, 0 ≤ i ≤ steps args ∧ i ∈ checkpoints (steps args) ∧
       path = snapshot_path i.
Proof.
  intros (i & Hi & Hin)%elem_of_main_loop.
  apply elem_of_iteration in Hin as (Hcp & [?|[[=]|[_ ?]]]); [done| |done].
  eauto.
Qed.

Lemma np_save_in_main_loop (v0 : variables ext) (path : string)
    (arr : ndarray Q) :
  E_np_save path arr ∈ trace (main_loop v0) →
  ∃ i, 0 ≤ i ≤ steps args ∧ i ∈ checkpoints (steps args) ∧
       i `mod` 10000 = 0 ∧ path = save_path i.
Proof.
  intros (i & Hi & Hin)%elem_of_main_loop.
  apply elem_of_iteration in Hin as (Hcp & [?|[?|[? [=]]]]); [done..|].
  eauto 6.
Qed.

Lemma shape_variables_at (v0 : variables ext) (n : nat) :
  (∀ rate loss s X, shape (adam_minimize ext rate loss s X).2 = shape X) →
  shape (tf_X ext (variables_at n v0)) = shape (tf_X ext v0).
Proof.
  intros Hadam. induction n as [|n IH]; [done|].
  change (variables_at (S n) v0) with (stepped (variables_at n v0)).
  unfold stepped at 1; cbn [tf_X]. rewrite Hadam. exact IH.
Qed.

End Iteration.

(** On the toy instance, the variable is one half everywhere on entry,
    and a run of zero steps saves three fifths: the array of
    [save_000000.npy] is the variable after the gradient step, where C3 as
    stated has it reflect the projected variable before the step. *)
Lemma saved_array_is_after_the_step :
  data (projected Toy.ext Toy.v0) = [1 # 2; 1 # 2; 1 # 2]%Q ∧
  E_np_save "out/save_000000.npy"
    (NdArray [1; 1; 1; 1; 3]%nat [3 # 5; 3 # 5; 3 # 5]%Q)
  ∈ trace (main_loop Toy.ext (Toy.args_2x4)
             Toy.config Toy.ref1 Toy.ref2 Toy.v0) ∧
  ¬ (∀ path arr,
       E_np_save path arr
       ∈ trace (main_loop Toy.ext (Toy.args_2x4)
                  Toy.config Toy.ref1 Toy.ref2 Toy.v0) →
       data arr = data (projected Toy.ext Toy.v0)).
Proof.
  assert (E_np_save "out/save_000000.npy"
            (NdArray [1; 1; 1; 1; 3]%nat [3 # 5; 3 # 5; 3 # 5]%Q)
          ∈ trace (main_loop Toy.ext (Toy.args_2x4)
                     Toy.config Toy.ref1 Toy.ref2 Toy.v0)) as Hin.
  { destruct (main_loop_split Toy.ext (Toy.args_2x4)
                Toy.config Toy.ref1 Toy.ref2 Toy.v0 0)
      as (before & after & ->); [done|].
    rewrite iteration_checkpoint by done.
    rewrite !elem_of_app. right; left. unfold trace; cbn [fst].
    rewrite elem_of_app. right. apply list_elem_of_singleton.
    by vm_compute. }
  split; [by vm_compute|]. split; [done|].
  intros Hall. apply Hall in Hin. by vm_compute in Hin.
Qed.

Lemma checkpoint_output_order_witness :
  0 ≤ 0 ≤ steps Toy.args_2x4 ∧
  0 ∈ checkpoints (steps Toy.args_2x4) ∧
  tf_X Toy.ext
    (stepped Toy.ext Toy.args_2x4 Toy.config Toy.ref1 Toy.ref2 Toy.v0) =
    (adam_minimize Toy.ext (rate_of Toy.ext Toy.args_2x4 Toy.v0)
       (loss_of Toy.ext Toy.config Toy.ref1 Toy.ref2 Toy.v0)
       (adam_slots Toy.ext Toy.v0) (projected Toy.ext Toy.v0)).2 ∧
  ∃ before after,
    trace (main_loop Toy.ext Toy.args_2x4 Toy.config Toy.ref1 Toy.ref2
             Toy.v0) =
    before ++
    ([E_print_status 0 (steps Toy.args_2x4)
        (V_float (loss_of Toy.ext Toy.config Toy.ref1 Toy.ref2 Toy.v0
                    (projected Toy.ext Toy.v0)))
        (V_rate (rate_of Toy.ext Toy.args_2x4 Toy.v0));
      E_imwrite (snapshot_path Toy.args_2x4 0)
        (tf_X_uint8 (projected Toy.ext Toy.v0))] ++
     (if bool_decide (0 `mod` 10000 = 0)
      then [E_np_save (save_path Toy.args_2x4 0)
              (np_asanyarray
                 [tf_X Toy.ext
                    (stepped Toy.ext Toy.args_2x4 Toy.config Toy.ref1
                       Toy.ref2 Toy.v0)])]
      else [])) ++
    after.
Proof.
  assert (0 ≤ 0 ≤ steps Toy.args_2x4) as Hi by (simpl; lia).
  assert (0 ∈ checkpoints (steps Toy.args_2x4)) as Hcp.
  { apply elem_of_checkpoints. left. apply zero_in_checkpoints_prefix. }
  split; [exact Hi|]. split; [exact Hcp|].
  exact (checkpoint_output_order Toy.ext Toy.args_2x4 Toy.config Toy.ref1
           Toy.ref2 Toy.v0 0 Hi Hcp).
Defined.

(** ** The script as a whole *)

Lemma np_asanyarray_singleton_shape {A} (X : ndarray A) :
  shape (np_asanyarray [X]) = 1%nat :: shape X.
Proof. done. Qed.

Lemma np_asanyarray_singleton_data {A} (X : ndarray A) :
  data (np_asanyarray [X]) = data X.
Proof. apply app_nil_r. Qed.

Lemma bind_intro {A B} (m : M A) (f : A → M B) (a : A)
    (t1 t2 : list event) (o : exn + B) :
  m = (t1, inr a) → f a = (t2, o) → m ≫= f = (t1 ++ t2, o).
Proof. intros -> Hf. unfold mbind, M_bind; simpl. by rewrite Hf. Qed.

Lemma bind_fail {A B} (m : M A) (f : A → M B) (t : list event) (e : exn) :
  m = (t, inl e) → m ≫= f = (t, inl e).
Proof. by intros ->. Qed.

Section Run.

Context (ext : Extern) (args : Args).

Local Abbreviation script := (script ext args).
Local Abbreviation load_image := (load_image ext).
Local Abbreviation load_rgb := (load_rgb ext).
Local Abbreviation main_loop := (main_loop ext args).
Local Abbreviation initial_variables := (initial_variables ext args).
Local Abbreviation calibrated := (calibrated args).

Lemma load_rgb_ok (path : string) (a image : ndarray Q) :
  load_image path = inr a → slice_channels a = inr image →
  load_rgb path = ([], inr image).
Proof.
  intros Ha Himage. unfold load_rgb. rewrite Ha. unfold lift.
  rewrite (bind_intro _ _ a [] [] (inr image)); [done..|].
  by rewrite Himage.
Qed.

(** The events before the loop, for images that load and agree in shape. *)
Lemma script_run (a1 a2 src dest : ndarray Q) (h w c : nat) (rest : list nat) :
  metric args ∈ supported_metrics →
  load_image (images args).1 = inr a1 →
  load_image (images args).2 = inr a2 →
  slice_channels a1 = inr src →
  slice_channels a2 = inr dest →
  shape src = h :: w :: c :: rest →
  shape dest = shape src →
  script =
  ([E_makedirs (outdir args);
    E_imwrite (os_path_join (outdir args) "src_image.png") (to_uint8_image src);
    E_imwrite (os_path_join (outdir args) "dest_image.png") (to_uint8_image dest);
    E_imwrite (os_path_join (outdir args) "initial_image.png")
      (to_uint8_image (entry0 (initial_image ext args [1; h; w; c]%nat)));
    E_print "Creating graph.";
    E_set_scale_levels w c;
    E_print "Starting session."] ++
   trace (main_loop (calibrated w c) (expand_dims0 src) (expand_dims0 dest)
            (initial_variables [1; h; w; c]%nat)),
   inr tt).
Proof.
  intros Hmetric Ha1 Ha2 Hsrc Hdest Hshape Hsame.
  assert (∃ t, script = (t, inr tt) ∧
    t = [E_makedirs (outdir args);
    E_imwrite (os_path_join (outdir args) "src_image.png") (to_uint8_image src);
    E_imwrite (os_path_join (outdir args) "dest_image.png") (to_uint8_image dest);
    E_imwrite (os_path_join (outdir args) "initial_image.png")
      (to_uint8_image (entry0 (initial_image ext args [1; h; w; c]%nat)));
    E_print "Creating graph.";
    E_set_scale_levels w c;
    E_print "Starting session."] ++
   trace (main_loop (calibrated w c) (expand_dims0 src) (expand_dims0 dest)
            (initial_variables [1; h; w; c]%nat))) as (t & -> & ->); [|done].
  eexists. split.
  - unfold script.
    eapply bind_intro.
    { rewrite bool_decide_eq_false_2 by (by intros []); reflexivity. }
    eapply bind_intro; [reflexivity|].
    eapply bind_intro; [by apply (load_rgb_ok _ a1 src)|].
    eapply bind_intro; [by apply (load_rgb_ok _ a2 dest)|].
    cbv zeta.
    eapply bind_intro.
    { cbn [zip zip_with check_shapes expand_dims0 shape].
      rewrite bool_decide_eq_false_2 by (by intros []).
      rewrite bool_decide_eq_false_2 by (rewrite Hsame; by intros []).
      reflexivity. }
    eapply bind_intro; [reflexivity|].
    eapply bind_intro; [reflexivity|].
    eapply bind_intro.
    { unfold shape_at, expand_dims0. cbn [shape]. reflexivity. }
    eapply bind_intro.
    { unfold shape_at, expand_dims0. cbn [shape]. rewrite Hshape. reflexivity. }
    eapply bind_intro.
    { unfold shape_at, expand_dims0. cbn [shape]. rewrite Hshape. reflexivity. }
    eapply bind_intro.
    { unfold shape_at, expand_dims0. cbn [shape]. rewrite Hshape. reflexivity. }
    eapply bind_intro; [reflexivity|].
    eapply bind_intro; [reflexivity|].
    eapply bind_intro; [reflexivity|].
    eapply bind_intro.
    { unfold shape_at, entry0, expand_dims0. cbn [shape tail].
      rewrite Hsame, Hshape. reflexivity. }
    eapply bind_intro.
    { unfold shape_at, entry0, expand_dims0. cbn [shape tail].
      rewrite Hsame, Hshape. reflexivity. }
    eapply bind_intro; [reflexivity|].
    eapply bind_intro; [reflexivity|].
    eapply bind_intro; [|reflexivity].
    apply injective_projections; [reflexivity|].
    apply main_loop_outcome.
  - by rewrite !app_nil_r.
Qed.

(** C8, amended: when both images load, have at least three axes, and
    still differ in shape after the cut to their first three channels, the
    script raises [Image '<second path>' has wrong shape.] and the creation
    of the output directory is its only effect. *)
Theorem shape_mismatch_is_fatal (a1 a2 src dest : ndarray Q) :
  metric args ∈ supported_metrics →
  load_image (images args).1 = inr a1 →
  load_image (images args).2 = inr a2 →
  slice_channels a1 = inr src →
  slice_channels a2 = inr dest →
  shape dest ≠ shape src →
  script =
  ([E_makedirs (outdir args)],
   inl (Exception ("Image '" +:+ (images args).2 +:+ "' has wrong shape."))).
Proof.
  intros Hmetric Ha1 Ha2 Hsrc Hdest Hshape.
  unfold script.
  rewrite (bind_intro _ _ tt [] [E_makedirs (outdir args)]
             (inl (Exception ("Image '" +:+ (images args).2 +:+
                               "' has wrong shape.")))); [done| |].
  { rewrite bool_decide_eq_false_2 by (by intros []); reflexivity. }
  rewrite (bind_intro _ _ tt [E_makedirs (outdir args)] []
             (inl (Exception ("Image '" +:+ (images args).2 +:+
                               "' has wrong shape.")))); [done..|].
  rewrite (bind_intro _ _ src [] []
             (inl (Exception ("Image '" +:+ (images args).2 +:+
                               "' has wrong shape."))));
    [done|by apply (load_rgb_ok _ a1)|].
  rewrite (bind_intro _ _ dest [] []
             (inl (Exception ("Image '" +:+ (images args).2 +:+
                               "' has wrong shape."))));
    [done|by apply (load_rgb_ok _ a2)|].
  cbv zeta. apply bind_fail.
  cbn [zip zip_with check_shapes expand_dims0 shape].
  rewrite bool_decide_eq_false_2 by (by intros []).
  rewrite bool_decide_eq_true_2; [done|].
  intros [=]. by apply Hshape.
Qed.

Lemma calibrations_main_loop (config : metric_config) (ref1 ref2 : ndarray Q)
    (v0 : variables ext) :
  calibrations (trace (main_loop config ref1 ref2 v0)) = [].
Proof.
  unfold calibrations.
  destruct (omap _ _) as [|[a b] l] eqn:Hl; [done|exfalso].
  assert ((a, b) ∈ (a, b) :: l) as Hin by apply list_elem_of_here.
  rewrite <- Hl in Hin. apply list_elem_of_omap in Hin as (ev & Hev & Hab).
  apply elem_of_main_loop in Hev as (i & _ & Hev).
  by apply elem_of_iteration in Hev as (_ & [->|[->| [_ ->]]]).
Qed.

(** The calibration call of line 116 on images that load with shape
    (h, w, c) after the cut: it receives [w] and [c]. *)
Lemma script_calibrations (a1 a2 src dest : ndarray Q) (h w c : nat)
    (rest : list nat) :
  metric args ∈ supported_metrics →
  load_image (images args).1 = inr a1 →
  load_image (images args).2 = inr a2 →
  slice_channels a1 = inr src →
  slice_channels a2 = inr dest →
  shape src = h :: w :: c :: rest →
  shape dest = shape src →
  calibrations (trace script) = [(w, c)].
Proof.
  intros. erewrite script_run by done.
  unfold trace at 1. cbn [fst]. unfold calibrations.
  rewrite omap_app. fold (calibrations (trace (main_loop (calibrated w c)
    (expand_dims0 src) (expand_dims0 dest) (initial_variables [1; h; w; c]%nat)))).
  by rewrite calibrations_main_loop.
Qed.

(** C10: for two images that load and, cut to three channels, both have
    shape (h, w, 3), and an optimizer that keeps the shape of the variable:
    at every multiple [i] of 10000 within the run the script writes
    [save_{i:06d}.npy], and what that file holds is exactly the one-element
    list [[X]] that [sess.run([tf_X])] returns, [X] being the variable
    after iteration [i]: an array of shape (1, 1, h, w, 3) with the
    elements of [X], where [X] itself has shape (1, h, w, 3).  No raw save
    holds anything else. *)
Theorem raw_save_wraps_X (a1 a2 src dest : ndarray Q) (h w : nat) (i : Z) :
  metric args ∈ supported_metrics →
  load_image (images args).1 = inr a1 →
  load_image (images args).2 = inr a2 →
  slice_channels a1 = inr src →
  slice_channels a2 = inr dest →
  shape src = [h; w; 3]%nat →
  shape dest = [h; w; 3]%nat →
  (∀ rate loss s X, shape (adam_minimize ext rate loss s X).2 = shape X) →
  0 ≤ i ≤ steps args →
  i `mod` 10000 = 0 →
  let X := tf_X ext
             (variables_at ext args (calibrated w 3) (expand_dims0 src)
                (expand_dims0 dest) (S (Z.to_nat i))
                (initial_variables [1; h; w; 3]%nat)) in
  E_np_save (save_path args i) (np_asanyarray [X]) ∈ trace script ∧
  (∀ arr, E_np_save (save_path args i) arr ∈ trace script →
          arr = np_asanyarray [X]) ∧
  shape X = [1; h; w; 3]%nat ∧
  shape (np_asanyarray [X]) = [1; 1; h; w; 3]%nat ∧
  data (np_asanyarray [X]) = data X ∧
  ∀ path arr,
    E_np_save path arr ∈ trace script →
    ∃ k,
      0 ≤ k ≤ steps args ∧ k `mod` 10000 = 0 ∧
      path = save_path args k ∧
      let Y := tf_X ext
                 (variables_at ext args (calibrated w 3) (expand_dims0 src)
                    (expand_dims0 dest) (S (Z.to_nat k))
                    (initial_variables [1; h; w; 3]%nat)) in
      arr = np_asanyarray [Y] ∧
      shape Y = [1; h; w; 3]%nat ∧
      shape arr = [1; 1; h; w; 3]%nat ∧
      data arr = data Y.
Proof.
  intros Hmetric Ha1 Ha2 Hsrc Hdest Hshape Hsame Hadam Hi Hmod X.
  assert (∀ n, shape (tf_X ext
            (variables_at ext args (calibrated w 3) (expand_dims0 src)
               (expand_dims0 dest) n (initial_variables [1; h; w; 3]%nat))) =
          [1; h; w; 3]%nat) as Hshapes.
  { intros n.
    apply (shape_variables_at ext args (calibrated w 3) (expand_dims0 src)
             (expand_dims0 dest) (initial_variables [1; h; w; 3]%nat)
             n Hadam). }
  assert (∀ path arr,
    E_np_save path arr ∈ trace script →
    ∃ k,
      0 ≤ k ≤ steps args ∧ k `mod` 10000 = 0 ∧
      path = save_path args k ∧
      arr = np_asanyarray
              [tf_X ext
                 (variables_at ext args (calibrated w 3) (expand_dims0 src)
                    (expand_dims0 dest) (S (Z.to_nat k))
                    (initial_variables [1; h; w; 3]%nat))]) as Hall.
  { intros path arr.
    rewrite (script_run a1 a2 src dest h w 3 []) by congruence.
    unfold trace at 1. cbn [fst]. rewrite elem_of_app.
    intros [Hin|Hin].
    { revert Hin. rewrite !elem_of_cons, elem_of_nil.
      intros [?|[?|[?|[?|[?|[?|[?|[]]]]]]]]; discriminate. }
    apply elem_of_main_loop in Hin as (k & Hk & Hin).
    apply elem_of_iteration in Hin as (_ & [?|[?|[Hk0 [= -> ->]]]]); [done..|].
    by exists k. }
  split; [|split; [|split; [|split; [|split]]]].
  - rewrite (script_run a1 a2 src dest h w 3 []) by congruence.
    unfold trace at 1. cbn [fst]. rewrite elem_of_app. right.
    destruct (main_loop_split ext args (calibrated w 3) (expand_dims0 src)
                (expand_dims0 dest) (initial_variables [1; h; w; 3]%nat) i Hi)
      as (before & after & ->).
    rewrite !elem_of_app. right; left.
    rewrite iteration_checkpoint
      by by apply bool_decide_eq_true, multiple_of_10000_is_checkpoint.
    unfold trace; cbn [fst]. rewrite elem_of_app. right.
    rewrite bool_decide_eq_true_2 by done. apply elem_of_cons. by left.
  - intros arr (k & Hk & _ & Hpath & ->)%Hall.
    apply save_path_inj in Hpath as <-; [done|lia..].
  - apply Hshapes.
  - rewrite np_asanyarray_singleton_shape. exact (f_equal (cons 1%nat) (Hshapes _)).
  - apply np_asanyarray_singleton_data.
  - intros path arr (k & Hk & Hk0 & -> & ->)%Hall.
    exists k. split; [done|]. split; [done|]. split; [done|].
    cbv zeta. split; [done|]. split; [apply Hshapes|]. split.
    + rewrite np_asanyarray_singleton_shape.
      exact (f_equal (cons 1%nat) (Hshapes _)).
    + apply np_asanyarray_singleton_data.
Qed.

Lemma check_shapes_trace (shape0 : list nat)
    (items : list (string * ndarray Q)) (image : option (ndarray Q)) :
  trace (check_shapes shape0 items image) = [].
Proof.
  revert image. induction items as [|[path im] items IH]; intros image; [done|].
  simpl. by case_bool_decide.
Qed.

(** Every event of the script is one of the seven of its start-up or an
    event of the loop. *)
Lemma elem_of_script (ev : event) :
  ev ∈ trace script →
  ev = E_makedirs (outdir args) ∨
  (∃ image, ev = E_imwrite (os_path_join (outdir args) "src_image.png") image) ∨
  (∃ image, ev = E_imwrite (os_path_join (outdir args) "dest_image.png") image) ∨
  (∃ image,
     ev = E_imwrite (os_path_join (outdir args) "initial_image.png") image) ∨
  (∃ line, ev = E_print line) ∨
  (∃ a b, ev = E_set_scale_levels a b) ∨
  ∃ config ref1 ref2 v0, ev ∈ trace (main_loop config ref1 ref2 v0).
Proof.
  unfold script. intros H.
  apply elem_of_trace_bind in H as [H|(? & _ & H)].
  { case_bool_decide; by apply elem_of_nil in H. }
  apply elem_of_trace_bind in H as [H|(? & _ & H)].
  { apply list_elem_of_singleton in H. by left. }
  apply elem_of_trace_bind in H as [H|(src & _ & H)].
  { unfold load_rgb, lift in H.
    apply elem_of_trace_bind in H as [H|(? & _ & H)]; by apply elem_of_nil in H. }
  apply elem_of_trace_bind in H as [H|(dest & _ & H)].
  { unfold load_rgb, lift in H.
    apply elem_of_trace_bind in H as [H|(? & _ & H)]; by apply elem_of_nil in H. }
  cbv zeta in H.
  apply elem_of_trace_bind in H as [H|(image & _ & H)].
  { rewrite check_shapes_trace in H. by apply elem_of_nil in H. }
  apply elem_of_trace_bind in H as [H|(? & _ & H)].
  { apply list_elem_of_singleton in H. right; left. eauto. }
  apply elem_of_trace_bind in H as [H|(? & _ & H)].
  { apply list_elem_of_singleton in H. do 2 right; left. eauto. }
  apply elem_of_trace_bind in H as [H|(d0 & _ & H)]; [by apply elem_of_nil in H|].
  apply elem_of_trace_bind in H as [H|(d1 & _ & H)]; [by apply elem_of_nil in H|].
  apply elem_of_trace_bind in H as [H|(d2 & _ & H)]; [by apply elem_of_nil in H|].
  apply elem_of_trace_bind in H as [H|(d3 & _ & H)]; [by apply elem_of_nil in H|].
  apply elem_of_trace_bind in H as [H|(? & _ & H)].
  { apply list_elem_of_singleton in H. do 3 right; left. eauto. }
  apply elem_of_trace_bind in H as [H|(? & _ & H)].
  { apply list_elem_of_singleton in H. do 4 right; left. eauto. }
  apply elem_of_trace_bind in H as [H|(im & _ & H)]; [by apply elem_of_nil in H|].
  apply elem_of_trace_bind in H as [H|(a & _ & H)]; [by apply elem_of_nil in H|].
  apply elem_of_trace_bind in H as [H|(b & _ & H)]; [by apply elem_of_nil in H|].
  apply elem_of_trace_bind in H as [H|(config & _ & H)].
  { apply list_elem_of_singleton in H. do 5 right; left. eauto. }
  apply elem_of_trace_bind in H as [H|(? & _ & H)].
  { apply list_elem_of_singleton in H. do 4 right; left. eauto. }
  apply elem_of_trace_bind in H as [H|(? & _ & H)].
  { do 6 right. eauto. }
  by apply elem_of_nil in H.
Qed.

Lemma snapshot_path_not_fixed (j : Z) (name : string) :
  0 ≤ j →
  name ∈ ["src_image"; "dest_image"; "initial_image"] →
  snapshot_path args j ≠ os_path_join (outdir args) (name +:+ ".png").
Proof.
  intros Hj Hname Heq. unfold snapshot_path in Heq.
  apply os_path_join_inj in Heq; [|by apply format_06d_relative|].
  - apply string_app_inj_r in Heq.
    pose proof (read_format_06d j Hj) as Hread. rewrite Heq in Hread.
    revert Hname Hread. rewrite !elem_of_cons, elem_of_nil.
    by intros [->|[->|[->|[]]]].
  - revert Hname. rewrite !elem_of_cons, elem_of_nil.
    by intros [->|[->|[->|[]]]].
Qed.

(** C9: the loop visits exactly the indices 0 .. total_steps; every PNG
    the script writes is one of its three start-up images or the snapshot
    [{i:06d}.png] of a checkpoint [i] in that interval, and every raw save
    is [save_{i:06d}.npy] for such an [i]; no snapshot and no raw save is
    written for an index above total_steps, although the checkpoint set
    always holds the whole fixed prefix, 1500 included. *)
Theorem files_only_within_steps :
  0 ≤ steps args →
  (∀ i, i ∈ py_range 0 (1 + steps args) 1 ↔ 0 ≤ i ≤ steps args) ∧
  (∀ path image, E_imwrite path image ∈ trace script →
     path ∈ [os_path_join (outdir args) "src_image.png";
             os_path_join (outdir args) "dest_image.png";
             os_path_join (outdir args) "initial_image.png"] ∨
     ∃ i, 0 ≤ i ≤ steps args ∧ i ∈ checkpoints (steps args) ∧
          path = snapshot_path args i) ∧
  (∀ path arr, E_np_save path arr ∈ trace script →
     ∃ i, 0 ≤ i ≤ steps args ∧ i ∈ checkpoints (steps args) ∧
          i `mod` 10000 = 0 ∧ path = save_path args i) ∧
  (∀ j image arr, steps args < j →
     (E_imwrite (snapshot_path args j) image ∉ trace script) ∧
     (E_np_save (save_path args j) arr ∉ trace script)) ∧
  (∀ c, c ∈ checkpoints_prefix → c ∈ checkpoints (steps args)).
Proof.
  intros Hsteps.
  assert (∀ path image, E_imwrite path image ∈ trace script →
     path ∈ [os_path_join (outdir args) "src_image.png";
             os_path_join (outdir args) "dest_image.png";
             os_path_join (outdir args) "initial_image.png"] ∨
     ∃ i, 0 ≤ i ≤ steps args ∧ i ∈ checkpoints (steps args) ∧
          path = snapshot_path args i) as Hpng.
  { intros path image Hin. rewrite !elem_of_cons, elem_of_nil.
    apply elem_of_script in Hin
      as [?|[[? [=]]|[[? [=]]|[[? [=]]|[[? ?]|[(? & ? & ?)|Hin]]]]]];
      try done; try tauto.
    destruct Hin as (config & ref1 & ref2 & v0 & Hin).
    right. by apply imwrite_in_main_loop in Hin. }
  assert (∀ path arr, E_np_save path arr ∈ trace script →
     ∃ i, 0 ≤ i ≤ steps args ∧ i ∈ checkpoints (steps args) ∧
          i `mod` 10000 = 0 ∧ path = save_path args i) as Hnpy.
  { intros path arr Hin.
    apply elem_of_script in Hin
      as [?|[[? ?]|[[? ?]|[[? ?]|[[? ?]|[(? & ? & ?)|Hin]]]]]]; try done.
    destruct Hin as (config & ref1 & ref2 & v0 & Hin).
    by apply np_save_in_main_loop in Hin. }
  split; [|split; [done|split; [done|split]]].
  - intros i. rewrite elem_of_py_range by done.
    rewrite Z.mod_1_r. lia.
  - intros j image arr Hj. split.
    + intros [Hfixed|(i & Hi & _ & Heq)]%Hpng.
      * revert Hfixed. rewrite !elem_of_cons, elem_of_nil.
        intros [Heq|[Heq|[Heq|[]]]]; revert Heq;
          [apply (snapshot_path_not_fixed j "src_image")
          |apply (snapshot_path_not_fixed j "dest_image")
          |apply (snapshot_path_not_fixed j "initial_image")];
          first [lia | rewrite !elem_of_cons; tauto].
      * apply snapshot_path_inj in Heq; lia.
    + intros (i & Hi & _ & _ & Heq)%Hnpy.
      apply save_path_inj in Heq; lia.
  - intros c Hc. apply elem_of_checkpoints. by left.
Qed.

End Run.

(** ** The script on the toy instance *)

Lemma shape_mismatch_is_fatal_witness :
  metric Toy.args_mismatch ∈ supported_metrics ∧
  load_image Toy.ext (images Toy.args_mismatch).1 =
    inr (Toy.constant_image [2; 2; 3]%nat (3 # 4)) ∧
  load_image Toy.ext (images Toy.args_mismatch).2 =
    inr (Toy.constant_image [2; 4; 3]%nat (1 # 4)) ∧
  slice_channels (Toy.constant_image [2; 2; 3]%nat (3 # 4)) =
    inr (Toy.constant_image [2; 2; 3]%nat (3 # 4)) ∧
  slice_channels (Toy.constant_image [2; 4; 3]%nat (1 # 4)) =
    inr (Toy.constant_image [2; 4; 3]%nat (1 # 4)) ∧
  shape (Toy.constant_image [2; 4; 3]%nat (1 # 4)) ≠
    shape (Toy.constant_image [2; 2; 3]%nat (3 # 4)) ∧
  script Toy.ext Toy.args_mismatch =
  ([E_makedirs (outdir Toy.args_mismatch)],
   inl (Exception ("Image '" +:+ (images Toy.args_mismatch).2 +:+
                   "' has wrong shape."))).
Proof.
  assert (metric Toy.args_mismatch ∈ supported_metrics) as Hmetric.
  { unfold supported_metrics. apply elem_of_cons. by left. }
  assert (shape (Toy.constant_image [2; 4; 3]%nat (1 # 4)) ≠
          shape (Toy.constant_image [2; 2; 3]%nat (3 # 4))) as Hne.
  { simpl. discriminate. }
  repeat (split; [first [exact Hmetric | exact Hne | reflexivity]|]).
  exact (shape_mismatch_is_fatal Toy.ext Toy.args_mismatch
           (Toy.constant_image [2; 2; 3]%nat (3 # 4))
           (Toy.constant_image [2; 4; 3]%nat (1 # 4))
           (Toy.constant_image [2; 2; 3]%nat (3 # 4))
           (Toy.constant_image [2; 4; 3]%nat (1 # 4))
           Hmetric eq_refl eq_refl eq_refl eq_refl Hne).
Defined.

(** C8, as stated, fails for an image with an alpha channel against one
    without: the loaded arrays have the different shapes (2, 2, 4) and
    (2, 2, 3), yet the script raises nothing and writes all its files. *)
Lemma rgba_and_rgb_pass_the_shape_check :
  load_image Toy.ext (images Toy.args_rgba_rgb).1 =
    inr (Toy.constant_image [2; 2; 4]%nat (1 # 4)) ∧
  load_image Toy.ext (images Toy.args_rgba_rgb).2 =
    inr (Toy.constant_image [2; 2; 3]%nat (3 # 4)) ∧
  shape (Toy.constant_image [2; 2; 4]%nat (1 # 4)) ≠
    shape (Toy.constant_image [2; 2; 3]%nat (3 # 4)) ∧
  outcome (script Toy.ext Toy.args_rgba_rgb) = inr tt ∧
  written_files (trace (script Toy.ext Toy.args_rgba_rgb)) =
    ["out/src_image.png"; "out/dest_image.png"; "out/initial_image.png";
     "out/000000.png"; "out/save_000000.npy"].
Proof.
  split; [reflexivity|]. split; [reflexivity|].
  split; [simpl; discriminate|].
  split; by vm_compute.
Qed.

(** C6 fails on the code.  For two images of height 2 and width 4 with
    three channels, the calibration of line 116 receives (4, 3), the width
    and the channel count, not the height and width (2, 4): [image[0]]
    there is the second image without its batch axis, so its axes 1 and 2
    are width and channels. *)
Theorem calibration_receives_width_and_channels :
  load_image Toy.ext (images Toy.args_2x4).1 =
    inr (Toy.constant_image [2; 4; 3]%nat (1 # 4)) ∧
  load_image Toy.ext (images Toy.args_2x4).2 =
    inr (Toy.constant_image [2; 4; 3]%nat (3 # 4)) ∧
  outcome (script Toy.ext Toy.args_2x4) = inr tt ∧
  calibrations (trace (script Toy.ext Toy.args_2x4)) = [(4, 3)%nat].
Proof.
  split; [reflexivity|]. split; [reflexivity|].
  split; by vm_compute.
Qed.

Lemma raw_save_wraps_X_witness :
  metric Toy.args_2x4 ∈ supported_metrics ∧
  load_image Toy.ext (images Toy.args_2x4).1 =
    inr (Toy.constant_image [2; 4; 3]%nat (1 # 4)) ∧
  load_image Toy.ext (images Toy.args_2x4).2 =
    inr (Toy.constant_image [2; 4; 3]%nat (3 # 4)) ∧
  slice_channels (Toy.constant_image [2; 4; 3]%nat (1 # 4)) =
    inr (Toy.constant_image [2; 4; 3]%nat (1 # 4)) ∧
  slice_channels (Toy.constant_image [2; 4; 3]%nat (3 # 4)) =
    inr (Toy.constant_image [2; 4; 3]%nat (3 # 4)) ∧
  shape (Toy.constant_image [2; 4; 3]%nat (1 # 4)) = [2; 4; 3]%nat ∧
  shape (Toy.constant_image [2; 4; 3]%nat (3 # 4)) = [2; 4; 3]%nat ∧
  (∀ rate loss s X,
     shape (adam_minimize Toy.ext rate loss s X).2 = shape X) ∧
  0 ≤ 0 ≤ steps Toy.args_2x4 ∧
  0 `mod` 10000 = 0 ∧
  E_np_save (save_path Toy.args_2x4 0)
    (np_asanyarray
       [tf_X Toy.ext
          (variables_at Toy.ext Toy.args_2x4 (calibrated Toy.args_2x4 4 3)
             (expand_dims0 (Toy.constant_image [2; 4; 3]%nat (1 # 4)))
             (expand_dims0 (Toy.constant_image [2; 4; 3]%nat (3 # 4)))
             1 (initial_variables Toy.ext Toy.args_2x4 [1; 2; 4; 3]%nat))])
  ∈ trace (script Toy.ext Toy.args_2x4) ∧
  (∀ arr,
     E_np_save (save_path Toy.args_2x4 0) arr
     ∈ trace (script Toy.ext Toy.args_2x4) →
     arr =
     np_asanyarray
       [tf_X Toy.ext
          (variables_at Toy.ext Toy.args_2x4 (calibrated Toy.args_2x4 4 3)
             (expand_dims0 (Toy.constant_image [2; 4; 3]%nat (1 # 4)))
             (expand_dims0 (Toy.constant_image [2; 4; 3]%nat (3 # 4)))
             1 (initial_variables Toy.ext Toy.args_2x4 [1; 2; 4; 3]%nat))]) ∧
  shape
    (tf_X Toy.ext
       (variables_at Toy.ext Toy.args_2x4 (calibrated Toy.args_2x4 4 3)
          (expand_dims0 (Toy.constant_image [2; 4; 3]%nat (1 # 4)))
          (expand_dims0 (Toy.constant_image [2; 4; 3]%nat (3 # 4)))
          1 (initial_variables Toy.ext Toy.args_2x4 [1; 2; 4; 3]%nat))) =
    [1; 2; 4; 3]%nat ∧
  shape
    (np_asanyarray
       [tf_X Toy.ext
          (variables_at Toy.ext Toy.args_2x4 (calibrated Toy.args_2x4 4 3)
             (expand_dims0 (Toy.constant_image [2; 4; 3]%nat (1 # 4)))
             (expand_dims0 (Toy.constant_image [2; 4; 3]%nat (3 # 4)))
             1 (initial_variables Toy.ext Toy.args_2x4 [1; 2; 4; 3]%nat))]) =
    [1; 1; 2; 4; 3]%nat ∧
  data
    (np_asanyarray
       [tf_X Toy.ext
          (variables_at Toy.ext Toy.args_2x4 (calibrated Toy.args_2x4 4 3)
             (expand_dims0 (Toy.constant_image [2; 4; 3]%nat (1 # 4)))
             (expand_dims0 (Toy.constant_image [2; 4; 3]%nat (3 # 4)))
             1 (initial_variables Toy.ext Toy.args_2x4 [1; 2; 4; 3]%nat))]) =
    data
      (tf_X Toy.ext
         (variables_at Toy.ext Toy.args_2x4 (calibrated Toy.args_2x4 4 3)
            (expand_dims0 (Toy.constant_image [2; 4; 3]%nat (1 # 4)))
            (expand_dims0 (Toy.constant_image [2; 4; 3]%nat (3 # 4)))
            1 (initial_variables Toy.ext Toy.args_2x4 [1; 2; 4; 3]%nat))) ∧
  ∀ path arr,
    E_np_save path arr ∈ trace (script Toy.ext Toy.args_2x4) →
    ∃ k,
      0 ≤ k ≤ steps Toy.args_2x4 ∧ k `mod` 10000 = 0 ∧
      path = save_path Toy.args_2x4 k ∧
      let Y := tf_X Toy.ext
                 (variables_at Toy.ext Toy.args_2x4
                    (calibrated Toy.args_2x4 4 3)
                    (expand_dims0 (Toy.constant_image [2; 4; 3]%nat (1 # 4)))
                    (expand_dims0 (Toy.constant_image [2; 4; 3]%nat (3 # 4)))
                    (S (Z.to_nat k))
                    (initial_variables Toy.ext Toy.args_2x4
                       [1; 2; 4; 3]%nat)) in
      arr = np_asanyarray [Y] ∧
      shape Y = [1; 2; 4; 3]%nat ∧
      shape arr = [1; 1; 2; 4; 3]%nat ∧
      data arr = data Y.
Proof.
  assert (metric Toy.args_2x4 ∈ supported_metrics) as Hmetric.
  { unfold supported_metrics. apply elem_of_cons. by left. }
  assert (∀ rate loss s X,
            shape (adam_minimize Toy.ext rate loss s X).2 = shape X) as Hadam.
  { intros. reflexivity. }
  assert (0 ≤ 0 ≤ steps Toy.args_2x4) as Hi by (simpl; lia).
  assert (0 `mod` 10000 = 0) as Hmod by reflexivity.
  repeat (split; [first [exact Hmetric | exact Hadam | exact Hi | exact Hmod
                        | reflexivity]|]).
  exact (raw_save_wraps_X Toy.ext Toy.args_2x4
           (Toy.constant_image [2; 4; 3]%nat (1 # 4))
           (Toy.constant_image [2; 4; 3]%nat (3 # 4))
           (Toy.constant_image [2; 4; 3]%nat (1 # 4))
           (Toy.constant_image [2; 4; 3]%nat (3 # 4))
           2%nat 4%nat 0
           Hmetric eq_refl eq_refl eq_refl eq_refl eq_refl eq_refl Hadam
           Hi Hmod).
Defined.

(** The raw save of the run of zero steps on the toy instance, evaluated:
    the variable after the step, under one more axis. *)
Example raw_save_of_a_run_of_zero_steps :
  omap (λ ev, match ev with
              | E_np_save path arr => Some (path, shape arr, data arr)
              | _ => None
              end) (trace (script Toy.ext Toy.args_2x4)) =
  [("out/save_000000.npy", [1; 1; 2; 4; 3]%nat, replicate 24 (3 # 5)%Q)].
Proof. by vm_compute. Qed.

Lemma files_only_within_steps_witness :
  0 ≤ steps Toy.args_2x4 ∧
  (∀ i, i ∈ py_range 0 (1 + steps Toy.args_2x4) 1 ↔
        0 ≤ i ≤ steps Toy.args_2x4) ∧
  (∀ path image,
     E_imwrite path image ∈ trace (script Toy.ext Toy.args_2x4) →
     path ∈ [os_path_join (outdir Toy.args_2x4) "src_image.png";
             os_path_join (outdir Toy.args_2x4) "dest_image.png";
             os_path_join (outdir Toy.args_2x4) "initial_image.png"] ∨
     ∃ i, 0 ≤ i ≤ steps Toy.args_2x4 ∧
          i ∈ checkpoints (steps Toy.args_2x4) ∧
          path = snapshot_path Toy.args_2x4 i) ∧
  (∀ path arr,
     E_np_save path arr ∈ trace (script Toy.ext Toy.args_2x4) →
     ∃ i, 0 ≤ i ≤ steps Toy.args_2x4 ∧
          i ∈ checkpoints (steps Toy.args_2x4) ∧
          i `mod` 10000 = 0 ∧ path = save_path Toy.args_2x4 i) ∧
  (∀ j image arr, steps Toy.args_2x4 < j →
     (E_imwrite (snapshot_path Toy.args_2x4 j) image
      ∉ trace (script Toy.ext Toy.args_2x4)) ∧
     (E_np_save (save_path Toy.args_2x4 j) arr
      ∉ trace (script Toy.ext Toy.args_2x4))) ∧
  (∀ c, c ∈ checkpoints_prefix → c ∈ checkpoints (steps Toy.args_2x4)).
Proof.
  assert (0 ≤ steps Toy.args_2x4) as Hsteps by (simpl; lia).
  split; [exact Hsteps|].
  exact (files_only_within_steps Toy.ext Toy.args_2x4 Hsteps).
Defined.

(** The files of a run of zero steps on the toy instance: the three
    start-up images, the snapshot of iteration 0 and its raw save. *)
Example files_of_a_run_of_zero_steps :
  written_files (trace (script Toy.ext Toy.args_2x4)) =
  ["out/src_image.png"; "out/dest_image.png"; "out/initial_image.png";
   "out/000000.png"; "out/save_000000.npy"].
Proof. by vm_compute. Qed.

(** Ten steps: the snapshots are those of 0, 1, 2, 3, 5, 7 and 10. *)
Example files_of_a_run_of_ten_steps :
  written_files (trace (script Toy.ext (Toy.args "a.npy" "b.npy" 10))) =
  ["out/src_image.png"; "out/dest_image.png"; "out/initial_image.png";
   "out/000000.png"; "out/save_000000.npy"; "out/000001.png";
   "out/000002.png"; "out/000003.png"; "out/000005.png"; "out/000007.png";
   "out/000010.png"].
Proof. by vm_compute. Qed.

(** * Further properties of the code *)

(** ** The learning-rate schedule beyond monotonicity *)

Local Open Scope R_scope.



Lemma tf_learning_rate_antitone (learning_rate : R) (i j : Z) :
  0 < learning_rate → (0 ≤ i)%Z → (i ≤ j)%Z →
  tf_learning_rate learning_rate j <= tf_learning_rate learning_rate i.
Proof.
  intros Hrate Hi Hij. unfold tf_learning_rate.
  pose proof (tf_pow_nonneg (tf_step_f32 i) 0.75).
  pose proof (tf_pow_mono (tf_step_f32 i) (tf_step_f32 j) 0.75
                ltac:(lra) (tf_step_f32_nonneg i) (tf_step_f32_mono i j Hi Hij)).
  unfold Rdiv. apply Rmult_le_compat_l; [lra|].
  apply Rinv_le_contravar; lra.
Qed.



Local Close Scope R_scope.

(** ** The checkpoint set *)

(** X3: from any iteration of a run the next snapshot is less than 500
    iterations away: for [0 <= i <= total_steps] there is a checkpoint [c]
    with [i <= c <= total_steps] and [c - i < 500]. *)
Theorem next_checkpoint_within_500 (total_steps i : Z) :
  0 ≤ i ≤ total_steps →
  ∃ c, c ∈ checkpoints total_steps ∧ i ≤ c ≤ total_steps ∧ c - i < 500.
Proof.
  intros Hi.
  assert (∃ c, (c ∈ checkpoints_prefix ∨ (2000 ≤ c ∧ c `mod` 500 = 0)) ∧
               i ≤ c ∧ c - i < 500) as (c & Hc & Hle & Hgap).
  { destruct (Z_le_gt_dec i 400); [exists 400|
    destruct (Z_le_gt_dec i 900); [exists 900|
    destruct (Z_le_gt_dec i 1200); [exists 1200|
    destruct (Z_le_gt_dec i 1500); [exists 1500|]]]].
    1-4: split; [left; unfold checkpoints_prefix; rewrite !elem_of_cons; lia|lia].
    exists (500 * ((i + 499) `div` 500)).
    pose proof (Z.div_mod (i + 499) 500 ltac:(lia)).
    pose proof (Z.mod_pos_bound (i + 499) 500 ltac:(lia)).
    split; [right; split; [lia|]|lia].
    rewrite Z.mul_comm. apply Z_mod_mult. }
  destruct (Z_le_gt_dec c total_steps).
  - exists c. split; [|lia]. apply elem_of_checkpoints.
    destruct Hc as [?|[? ?]]; [by left|right; left; split; [lia|done]].
  - exists total_steps. split; [|lia]. apply elem_of_checkpoints. by right; right.
Qed.

Lemma next_checkpoint_within_500_witness :
  0 ≤ 1501 ≤ 1700 ∧
  ∃ c, c ∈ checkpoints 1700 ∧ 1501 ≤ c ≤ 1700 ∧ c - 1501 < 500.
Proof. split; [lia|]. apply (next_checkpoint_within_500 1700 1501). lia. Defined.

(** ** Projection and quantization of pixel values *)

Local Open Scope Q_scope.

Lemma clip_value_fixed (lo hi x : Q) :
  lo <= x <= hi → clip_value lo hi x = x.
Proof.
  intros [Hlo Hhi]. unfold clip_value, Qminimum, Qmaximum.
  apply Qle_bool_iff in Hlo, Hhi. by rewrite Hhi, Hlo.
Qed.

Lemma clip_value_range (lo hi x : Q) :
  lo <= hi → lo <= clip_value lo hi x <= hi.
Proof.
  intros Hle. unfold clip_value, Qminimum, Qmaximum.
  destruct (Qle_bool x hi) eqn:Hhi.
  - destruct (Qle_bool lo x) eqn:Hlo.
    + by split; apply Qle_bool_iff.
    + split; [apply Qle_refl|done].
  - apply Qle_bool_iff in Hle as Hle'. rewrite Hle'.
    split; [done|apply Qle_refl].
Qed.

Lemma clip_value_mono (lo hi x y : Q) :
  lo <= hi → x <= y → clip_value lo hi x <= clip_value lo hi y.
Proof.
  intros Hle Hxy. unfold clip_value, Qminimum, Qmaximum.
  destruct (Qle_bool x hi) eqn:Hx, (Qle_bool y hi) eqn:Hy;
    repeat match goal with
    | |- context [Qle_bool ?a ?b] => destruct (Qle_bool a b) eqn:?
    end;
    repeat match goal with
    | H : Qle_bool _ _ = true |- _ => apply Qle_bool_iff in H
    | H : Qle_bool _ _ = false |- _ =>
        apply not_true_iff_false in H; rewrite Qle_bool_iff in H;
        apply Qnot_le_lt in H
    end; Lqa.lra.
Qed.

Lemma fmap_fixed {A} (f : A → A) (l : list A) :
  Forall (λ x, f x = x) l → f <$> l = l.
Proof. induction 1 as [|x l Hx _ IH]; [done|]. csimpl. by f_equal. Qed.

Lemma tf_fix_X_fixed (X : ndarray Q) :
  Forall (λ x, TOLERANCE <= x <= 1 - TOLERANCE) (data X) → tf_fix_X X = X.
Proof.
  destruct X as [dims xs]. intros Hin.
  unfold tf_fix_X, clip, ndarray_map. simpl in *.
  f_equal. apply fmap_fixed.
  eapply Forall_impl; [exact Hin|]. intros x Hx. by apply clip_value_fixed.
Qed.

(** X4: the projection keeps the shape, changes nothing in an array whose
    elements are already in [TOLERANCE, 1 - TOLERANCE], and is idempotent:
    projecting twice gives what projecting once gives. *)
Theorem tf_fix_X_idempotent (X : ndarray Q) :
  shape (tf_fix_X X) = shape X ∧
  (Forall (λ x, TOLERANCE <= x <= 1 - TOLERANCE) (data X) → tf_fix_X X = X) ∧
  tf_fix_X (tf_fix_X X) = tf_fix_X X.
Proof.
  split; [done|]. split; [apply tf_fix_X_fixed|].
  apply tf_fix_X_fixed, projected_in_range.
Qed.

Lemma quantize_range (x : Q) : (0 ≤ quantize x ≤ 255)%Z.
Proof.
  pose proof (clip_value_range 0 1 x ltac:(done)) as [H0 H1].
  assert ((1 # 2) <= 255 * clip_value 0 1 x + (1 # 2)) as Hlo by Lqa.lra.
  assert (255 * clip_value 0 1 x + (1 # 2) <= (511 # 2)) as Hhi by Lqa.lra.
  apply Qfloor_resp_le in Hlo, Hhi.
  change (Qfloor (1 # 2)) with 0%Z in Hlo.
  change (Qfloor (511 # 2)) with 255%Z in Hhi.
  unfold quantize. rewrite Z.mod_small; lia.
Qed.

Lemma quantize_floor (x : Q) :
  quantize x = Qfloor (255 * clip_value 0 1 x + (1 # 2)).
Proof.
  pose proof (quantize_range x) as Hrange. unfold quantize in *.
  apply Z.mod_small.
  pose proof (Z.mod_pos_bound (Qfloor (255 * clip_value 0 1 x + (1 # 2))) 256
                ltac:(lia)).
  destruct (Z_lt_le_dec (Qfloor (255 * clip_value 0 1 x + (1 # 2))) 0);
    [|destruct (Z_lt_le_dec (Qfloor (255 * clip_value 0 1 x + (1 # 2))) 256);
      [lia|]].
  - pose proof (clip_value_range 0 1 x ltac:(done)) as [H0 H1].
    assert ((1 # 2) <= 255 * clip_value 0 1 x + (1 # 2)) as Hlo by Lqa.lra.
    apply Qfloor_resp_le in Hlo. change (Qfloor (1 # 2)) with 0%Z in Hlo. lia.
  - pose proof (clip_value_range 0 1 x ltac:(done)) as [H0 H1].
    assert (255 * clip_value 0 1 x + (1 # 2) <= (511 # 2)) as Hhi by Lqa.lra.
    apply Qfloor_resp_le in Hhi. change (Qfloor (511 # 2)) with 255%Z in Hhi.
    lia.
Qed.

(** X5: the 8-bit value of the snapshot never wraps around: it lies in
    0 .. 255 for every pixel value, and a larger pixel value never gets a
    smaller 8-bit value. *)
Theorem quantize_range_monotone (x y : Q) :
  (0 ≤ quantize x ≤ 255)%Z ∧
  (x <= y → (quantize x ≤ quantize y)%Z).
Proof.
  split; [apply quantize_range|].
  intros Hxy. rewrite !quantize_floor. apply Qfloor_resp_le.
  pose proof (clip_value_mono 0 1 x y ltac:(done) Hxy). Lqa.lra.
Qed.

Lemma quantize_decoded (v : Z) :
  (0 ≤ v ≤ 255)%Z → astype_uint8 ((1 # 2) + 255 * (inject_Z v / 255)) = v.
Proof.
  intros Hv. unfold astype_uint8, Qtruncate.
  assert ((1 # 2) + 255 * (inject_Z v / 255) == inject_Z v + (1 # 2)) as Heq
    by (field; done).
  assert (inject_Z 0 <= inject_Z v) as Hv0 by (rewrite <- Zle_Qle; lia).
  change (inject_Z 0) with 0 in Hv0.
  assert (Qle_bool 0 ((1 # 2) + 255 * (inject_Z v / 255)) = true) as ->.
  { apply Qle_bool_iff. rewrite Heq. Lqa.lra. }
  rewrite Heq.
  assert (Qfloor (inject_Z v + (1 # 2)) = v) as ->; [|by apply Z.mod_small; lia].
  pose proof (Qfloor_le (inject_Z v + (1 # 2))) as Hle.
  pose proof (Qlt_floor (inject_Z v + (1 # 2))) as Hlt.
  assert (inject_Z (Qfloor (inject_Z v + (1 # 2))) < inject_Z (v + 1)) as H1.
  { rewrite inject_Z_plus. change (inject_Z 1) with 1. Lqa.lra. }
  assert (inject_Z v < inject_Z (Qfloor (inject_Z v + (1 # 2)) + 1)) as H2.
  { Lqa.lra. }
  rewrite <- Zlt_Qlt in H1, H2. lia.
Qed.

Lemma to_uint8_image_of_decoded (a : ndarray Z) :
  Forall (λ v, 0 ≤ v ≤ 255)%Z (data a) →
  to_uint8_image (ndarray_map (λ v, inject_Z v / 255) a) = a.
Proof.
  destruct a as [dims vs]. intros Hvs.
  unfold to_uint8_image, ndarray_map. simpl in *. f_equal.
  rewrite <- list_fmap_compose. apply fmap_fixed.
  eapply Forall_impl; [exact Hvs|]. intros v Hv. by apply quantize_decoded.
Qed.

(** X6: a [.png] or [.jpg] file (extension in any case) whose decoded
    values are in 0 .. 255 loads as an array of the same shape with all
    values in [0, 1], and encoding that array the way the script writes
    [src_image.png] and [dest_image.png] gives the decoded file back. *)
Theorem png_load_and_encode_round_trip (ext : Extern) (path : string)
    (raw : ndarray Z) :
  lower (os_path_splitext ext path).2 ∈ [".png"; ".jpg"] →
  imageio_imread ext path = inr raw →
  Forall (λ v, 0 ≤ v ≤ 255)%Z (data raw) →
  ∃ a, load_image ext path = inr a ∧
       shape a = shape raw ∧
       Forall (λ x, 0 <= x <= 1) (data a) ∧
       to_uint8_image a = raw.
Proof.
  intros Hext Hread Hraw.
  exists (ndarray_map (λ v, inject_Z v / 255) raw).
  split; [|split; [done|split; [|by apply to_uint8_image_of_decoded]]].
  - unfold load_image. rewrite Hread.
    rewrite bool_decide_eq_false_2.
    + by rewrite bool_decide_eq_true_2.
    + revert Hext. rewrite !elem_of_cons, elem_of_nil.
      intros [->|[->|[]]]; discriminate.
  - unfold ndarray_map; cbn [data]. apply Forall_fmap.
    eapply Forall_impl; [exact Hraw|]. intros v [Hlo Hhi]. cbn.
    assert (inject_Z 0 <= inject_Z v) as H0 by (rewrite <- Zle_Qle; lia).
    assert (inject_Z v <= inject_Z 255) as H1 by (rewrite <- Zle_Qle; lia).
    change (inject_Z 0) with 0 in H0. change (inject_Z 255) with 255 in H1.
    split.
    + apply Qle_shift_div_l; [done|]. Lqa.lra.
    + apply Qle_shift_div_r; [done|]. Lqa.lra.
Qed.

Lemma quantize_agrees (x : Q) :
  0 <= x <= 1 → quantize x = astype_uint8 ((1 # 2) + 255 * x).
Proof.
  intros Hx. unfold quantize, astype_uint8, Qtruncate.
  rewrite clip_value_fixed by done.
  assert (Qle_bool 0 ((1 # 2) + 255 * x) = true) as ->.
  { apply Qle_bool_iff. Lqa.lra. }
  by rewrite (Qplus_comm (255 * x)).
Qed.

Local Close Scope Q_scope.

(** ** The loop, iteration by iteration *)

Section Loop.

Context (ext : Extern) (args : Args).
Context (config : metric_config) (ref1 ref2 : ndarray Q).

Local Abbreviation iteration := (iteration ext args config ref1 ref2).
Local Abbreviation main_loop := (main_loop ext args config ref1 ref2).
Local Abbreviation stepped := (stepped ext args config ref1 ref2).
Local Abbreviation variables_at := (variables_at ext args config ref1 ref2).
Local Abbreviation rate_of := (rate_of ext args).
Local Abbreviation snapshot_path := (snapshot_path args).
Local Abbreviation save_path := (save_path args).

Lemma tf_step_variables_at (v0 : variables ext) (n : nat) :
  tf_step ext (variables_at n v0) = tf_step ext v0 + Z.of_nat n.
Proof.
  induction n as [|n IH]; [simpl; lia|].
  change (variables_at (S n) v0) with (stepped (variables_at n v0)).
  unfold stepped at 1; cbn [tf_step]. lia.
Qed.

Lemma elem_of_iteration_main_loop (v0 : variables ext) (i : Z) (ev : event) :
  0 ≤ i ≤ steps args →
  ev ∈ trace (iteration i (variables_at (Z.to_nat i) v0)) →
  ev ∈ trace (main_loop v0).
Proof.
  intros Hi Hev.
  destruct (main_loop_split ext args config ref1 ref2 v0 i Hi)
    as (before & after & ->).
  rewrite !elem_of_app. by right; left.
Qed.

(** X7: as long as the 32-bit step counter does not overflow, the loop
    runs max(0, total_steps + 1) iterations and each of them, checkpoint or
    not, advances the counter by exactly one; with a negative step count
    the loop does nothing at all. *)
Theorem main_loop_counts_iterations (v0 : variables ext) :
  - 2 ^ 31 ≤ tf_step ext v0 →
  tf_step ext v0 + Z.max 0 (1 + steps args) < 2 ^ 31 →
  (∃ v, outcome (main_loop v0) = inr v ∧
        tf_step ext v = tf_step ext v0 + Z.max 0 (1 + steps args) ∧
        - 2 ^ 31 ≤ tf_step ext v < 2 ^ 31) ∧
  (steps args < 0 → main_loop v0 = ([], inr v0)).
Proof.
  intros Hlo Hhi. split.
  - eexists. split; [apply main_loop_outcome|].
    rewrite tf_step_variables_at. lia.
  - intros Hneg. unfold main_loop. rewrite py_range_from_zero.
    by rewrite Z2Nat.nonpos by lia.
Qed.

(** X8: whether an iteration is a checkpoint changes what is written, not
    what is computed: the variables an iteration leaves are the same for
    every index, and an iteration that is not a checkpoint has no effect
    on the outside. *)
Theorem checkpoints_do_not_change_the_variables (i j : Z) (v : variables ext) :
  outcome (iteration i v) = outcome (iteration j v) ∧
  (i ∉ checkpoints (steps args) → trace (iteration i v) = []).
Proof.
  split.
  - by rewrite !iteration_outcome.
  - intros Hcp. rewrite iteration_plain; [done|].
    by apply bool_decide_eq_false.
Qed.

(** X9: for a positive base rate and a counter that starts at 0 or above
    and does not overflow its 32 bits up to the later iteration, the
    learning rates on the status lines of a run never increase from an
    iteration to a later one, whichever way the unordered read of the
    counter falls. *)
Theorem printed_rates_never_increase (v0 : variables ext) (i j : Z)
    (loss_i loss_j : value) (rate_i rate_j : R) :
  (0 < learning_rate args)%R →
  0 ≤ tf_step ext v0 →
  tf_step ext v0 + j + 1 < 2 ^ 31 →
  i ≤ j →
  E_print_status i (steps args) loss_i (V_rate rate_i) ∈ trace (main_loop v0) →
  E_print_status j (steps args) loss_j (V_rate rate_j) ∈ trace (main_loop v0) →
  (rate_j <= rate_i)%R.
Proof.
  intros Hrate Hstep Hbound Hij Hi Hj.
  apply elem_of_main_loop in Hi as (i' & Hi' & Hi).
  apply elem_of_iteration in Hi as (_ & [[= <- _ ->]|[?|[_ ?]]]); [|done..].
  apply elem_of_main_loop in Hj as (j' & Hj' & Hj).
  apply elem_of_iteration in Hj as (_ & [[= <- _ ->]|[?|[_ ?]]]); [|done..].
  destruct (decide (i = j)) as [->|Hne]; [apply Rle_refl|].
  unfold rate_of. rewrite !tf_step_variables_at.
  apply tf_learning_rate_antitone; [done|..];
    repeat destruct (rate_reads_increment _ _); lia.
Qed.

(** X10: for an index [i >= 0], the loop writes the snapshot
    [{i:06d}.png] exactly when [i <= total_steps] and [i] is a checkpoint;
    in particular iteration 0 and the last iteration always get one. *)
Theorem snapshots_exactly_at_checkpoints (v0 : variables ext) (i : Z) :
  0 ≤ i →
  ((∃ image, E_imwrite (snapshot_path i) image ∈ trace (main_loop v0)) ↔
   i ≤ steps args ∧ i ∈ checkpoints (steps args)).
Proof.
  intros Hi. split.
  - intros (image & (i' & Hi' & Hcp & Heq)%imwrite_in_main_loop).
    apply snapshot_path_inj in Heq as <-; [split; [lia|done]|lia..].
  - intros [Hle Hcp]. eexists.
    apply (elem_of_iteration_main_loop v0 i); [lia|].
    rewrite iteration_checkpoint by by apply bool_decide_eq_true.
    unfold trace; cbn [fst]. rewrite elem_of_app. left.
    apply elem_of_cons. right. apply elem_of_cons. by left.
Qed.

(** X11: for an index [i >= 0], the loop writes the raw save
    [save_{i:06d}.npy] exactly when [i <= total_steps] and [i] is a
    multiple of 10000: every such multiple is a checkpoint. *)
Theorem saves_exactly_at_multiples_of_10000 (v0 : variables ext) (i : Z) :
  0 ≤ i →
  ((∃ arr, E_np_save (save_path i) arr ∈ trace (main_loop v0)) ↔
   i ≤ steps args ∧ i `mod` 10000 = 0).
Proof.
  intros Hi. split.
  - intros (arr & (i' & Hi' & Hcp & Hmod & Heq)%np_save_in_main_loop).
    apply save_path_inj in Heq as <-; [split; [lia|done]|lia..].
  - intros [Hle Hmod]. eexists.
    apply (elem_of_iteration_main_loop v0 i); [lia|].
    rewrite iteration_checkpoint
      by (apply bool_decide_eq_true, multiple_of_10000_is_checkpoint;
          [lia|done]).
    unfold trace; cbn [fst]. rewrite elem_of_app. right.
    rewrite bool_decide_eq_true_2 by done. apply elem_of_cons. by left.
Qed.

End Loop.

(** ** How the script ends *)

Section Outcome.

Context (ext : Extern) (args : Args).

Local Abbreviation script := (script ext args).
Local Abbreviation load_image := (load_image ext).
Local Abbreviation load_rgb := (load_rgb ext).
Local Abbreviation main_loop := (main_loop ext args).
Local Abbreviation initial_variables := (initial_variables ext args).
Local Abbreviation calibrated := (calibrated args).

Lemma load_rgb_eq (path : string) :
  load_rgb path =
  ([], match load_image path with
       | inr a => slice_channels a
       | inl e => inl e
       end).
Proof. unfold load_rgb, lift. by destruct (load_image path). Qed.

Lemma script_unsupported :
  metric args ∉ supported_metrics →
  script = ([], inl (Exception "Unsupported metric.")).
Proof.
  intros Hmetric. unfold script. apply bind_fail.
  by rewrite bool_decide_eq_true_2.
Qed.

Lemma script_first_load_fails (e : exn) :
  metric args ∈ supported_metrics →
  outcome (load_rgb (images args).1) = inl e →
  script = ([E_makedirs (outdir args)], inl e).
Proof.
  intros Hmetric Hload. unfold script.
  rewrite (bind_intro _ _ tt [] [E_makedirs (outdir args)] (inl e)); [done| |].
  { rewrite bool_decide_eq_false_2 by (by intros []); reflexivity. }
  rewrite (bind_intro _ _ tt [E_makedirs (outdir args)] [] (inl e)); [done..|].
  apply bind_fail. rewrite load_rgb_eq in Hload |- *. by rewrite <- Hload.
Qed.

Lemma script_second_load_fails (src : ndarray Q) (e : exn) :
  metric args ∈ supported_metrics →
  outcome (load_rgb (images args).1) = inr src →
  outcome (load_rgb (images args).2) = inl e →
  script = ([E_makedirs (outdir args)], inl e).
Proof.
  intros Hmetric Hsrc Hload. unfold script.
  rewrite (bind_intro _ _ tt [] [E_makedirs (outdir args)] (inl e)); [done| |].
  { rewrite bool_decide_eq_false_2 by (by intros []); reflexivity. }
  rewrite (bind_intro _ _ tt [E_makedirs (outdir args)] [] (inl e)); [done..|].
  rewrite (bind_intro _ _ src [] [] (inl e)); [done| |].
  { rewrite load_rgb_eq in Hsrc |- *. by rewrite <- Hsrc. }
  apply bind_fail. rewrite load_rgb_eq in Hload |- *. by rewrite <- Hload.
Qed.

Lemma script_shapes_differ (src dest : ndarray Q) :
  metric args ∈ supported_metrics →
  outcome (load_rgb (images args).1) = inr src →
  outcome (load_rgb (images args).2) = inr dest →
  shape dest ≠ shape src →
  script =
  ([E_makedirs (outdir args)],
   inl (Exception ("Image '" +:+ (images args).2 +:+ "' has wrong shape."))).
Proof.
  intros Hmetric Hsrc Hdest Hshape. unfold script.
  rewrite (bind_intro _ _ tt [] [E_makedirs (outdir args)]
             (inl (Exception ("Image '" +:+ (images args).2 +:+
                               "' has wrong shape.")))); [done| |].
  { rewrite bool_decide_eq_false_2 by (by intros []); reflexivity. }
  rewrite (bind_intro _ _ tt [E_makedirs (outdir args)] []
             (inl (Exception ("Image '" +:+ (images args).2 +:+
                               "' has wrong shape.")))); [done..|].
  rewrite (bind_intro _ _ src [] []
             (inl (Exception ("Image '" +:+ (images args).2 +:+
                               "' has wrong shape.")))); [done| |].
  { rewrite load_rgb_eq in Hsrc |- *. by rewrite <- Hsrc. }
  rewrite (bind_intro _ _ dest [] []
             (inl (Exception ("Image '" +:+ (images args).2 +:+
                               "' has wrong shape.")))); [done| |].
  { rewrite load_rgb_eq in Hdest |- *. by rewrite <- Hdest. }
  cbv zeta. apply bind_fail.
  cbn [zip zip_with check_shapes expand_dims0 shape].
  rewrite bool_decide_eq_false_2 by (by intros []).
  rewrite bool_decide_eq_true_2; [done|].
  intros [=]. by apply Hshape.
Qed.

Lemma load_rgb_inv (path : string) (image : ndarray Q) :
  outcome (load_rgb path) = inr image →
  ∃ a h w c rest,
    load_image path = inr a ∧ slice_channels a = inr image ∧
    shape image = h :: w :: c :: rest.
Proof.
  rewrite load_rgb_eq. unfold outcome; cbn [snd].
  destruct (load_image path) as [|a]; [done|]. intros Hslice.
  exists a. unfold slice_channels in Hslice |- *.
  destruct (shape a) as [|h [|w [|c rest]]]; try done.
  injection Hslice as <-. by exists h, w, (Nat.min c 3), rest.
Qed.

Lemma script_succeeds (src dest : ndarray Q) :
  metric args ∈ supported_metrics →
  outcome (load_rgb (images args).1) = inr src →
  outcome (load_rgb (images args).2) = inr dest →
  shape dest = shape src →
  ∃ h w c rest,
    shape src = h :: w :: c :: rest ∧
    script =
    ([E_makedirs (outdir args);
      E_imwrite (os_path_join (outdir args) "src_image.png")
        (to_uint8_image src);
      E_imwrite (os_path_join (outdir args) "dest_image.png")
        (to_uint8_image dest);
      E_imwrite (os_path_join (outdir args) "initial_image.png")
        (to_uint8_image (entry0 (initial_image ext args [1; h; w; c]%nat)));
      E_print "Creating graph.";
      E_set_scale_levels w c;
      E_print "Starting session."] ++
     trace (main_loop (calibrated w c) (expand_dims0 src) (expand_dims0 dest)
              (initial_variables [1; h; w; c]%nat)),
     inr tt).
Proof.
  intros Hmetric Hsrc Hdest Hsame.
  apply load_rgb_inv in Hsrc as (a1 & h & w & c & rest & Ha1 & Hs1 & Hshape).
  apply load_rgb_inv in Hdest as (a2 & ? & ? & ? & ? & Ha2 & Hs2 & _).
  exists h, w, c, rest. split; [done|].
  by apply (script_run ext args a1 a2 src dest h w c rest).
Qed.

(** X13: a metric name outside the four supported ones ends the script
    with [Unsupported metric.] before anything happens: not even the output
    directory is created. *)
Theorem unsupported_metric_is_fatal :
  metric args ∉ supported_metrics →
  script = ([], inl (Exception "Unsupported metric.")).
Proof. apply script_unsupported. Qed.

(** X14: if an image cannot be loaded and cut to three channels, the first
    or, after the first loaded, the second, the script ends with the error
    of that load; the output directory has been created and nothing else. *)
Theorem load_failure_is_fatal (e : exn) :
  metric args ∈ supported_metrics →
  outcome (load_rgb (images args).1) = inl e ∨
  (∃ src, outcome (load_rgb (images args).1) = inr src ∧
          outcome (load_rgb (images args).2) = inl e) →
  script = ([E_makedirs (outdir args)], inl e).
Proof.
  intros Hmetric [Hload|(src & Hsrc & Hload)].
  - by apply script_first_load_fails.
  - by apply (script_second_load_fails src).
Qed.

(** X15: when the extension of the first image, in lower case, is none
    of [.npy], [.png], [.jpg], the script ends with [Unknown image type.],
    whatever the file holds; the error does not name the path, and the
    output directory has been created. *)
Theorem unknown_extension_is_fatal :
  metric args ∈ supported_metrics →
  lower (os_path_splitext ext (images args).1).2 ∉ [".npy"; ".png"; ".jpg"] →
  script = ([E_makedirs (outdir args)], inl (Exception "Unknown image type.")).
Proof.
  intros Hmetric Hext.
  apply script_first_load_fails; [done|].
  rewrite load_rgb_eq. unfold outcome; cbn [snd].
  unfold load_image. revert Hext. rewrite !not_elem_of_cons.
  intros (Hnpy & Hpng & Hjpg & _).
  rewrite bool_decide_eq_false_2 by done.
  rewrite bool_decide_eq_false_2; [done|].
  rewrite !elem_of_cons, elem_of_nil. tauto.
Qed.

(** X16: when the first image loads with fewer than three axes, as a
    grayscale image does, the cut to three channels raises [IndexError] and
    the script ends with it; the error names no path, and the output
    directory has been created. *)
Theorem too_few_axes_is_fatal (a : ndarray Q) :
  metric args ∈ supported_metrics →
  load_image (images args).1 = inr a →
  (length (shape a) < 3)%nat →
  script = ([E_makedirs (outdir args)], inl IndexError).
Proof.
  intros Hmetric Hload Hrank.
  apply script_first_load_fails; [done|].
  rewrite load_rgb_eq. unfold outcome; cbn [snd]. rewrite Hload.
  unfold slice_channels.
  destruct (shape a) as [|h [|w [|c rest]]]; try done. simpl in Hrank. lia.
Qed.

(** The script either fails, having at most created the output
    directory, or gets through its start-up and runs the loop. *)
Lemma script_cases :
  (∃ e, outcome script = inl e ∧
        (trace script = [] ∨ trace script = [E_makedirs (outdir args)])) ∨
  (∃ src dest h w c rest,
     metric args ∈ supported_metrics ∧
     outcome (load_rgb (images args).1) = inr src ∧
     outcome (load_rgb (images args).2) = inr dest ∧
     shape dest = shape src ∧
     shape src = h :: w :: c :: rest ∧
     script =
     ([E_makedirs (outdir args);
       E_imwrite (os_path_join (outdir args) "src_image.png")
         (to_uint8_image src);
       E_imwrite (os_path_join (outdir args) "dest_image.png")
         (to_uint8_image dest);
       E_imwrite (os_path_join (outdir args) "initial_image.png")
         (to_uint8_image (entry0 (initial_image ext args [1; h; w; c]%nat)));
       E_print "Creating graph.";
       E_set_scale_levels w c;
       E_print "Starting session."] ++
      trace (main_loop (calibrated w c) (expand_dims0 src) (expand_dims0 dest)
               (initial_variables [1; h; w; c]%nat)),
      inr tt)).
Proof.
  destruct (decide (metric args ∈ supported_metrics)) as [Hmetric|Hmetric];
    [|left; rewrite script_unsupported by done; eauto].
  destruct (outcome (load_rgb (images args).1)) as [e1|src] eqn:Hsrc;
    [left; rewrite (script_first_load_fails e1) by done; eauto|].
  destruct (outcome (load_rgb (images args).2)) as [e2|dest] eqn:Hdest;
    [left; rewrite (script_second_load_fails src e2) by done; eauto|].
  destruct (decide (shape dest = shape src)) as [Hsame|Hne];
    [|left; rewrite (script_shapes_differ src dest) by done; eauto].
  right.
  destruct (script_succeeds src dest) as (h & w & c & rest & Hshape & Heq);
    [done..|].
  exists src, dest, h, w, c, rest. by rewrite <- Heq.
Qed.

Lemma initial_image_in_range (dims : list nat) :
  Forall (λ x, TOLERANCE <= x <= 1 - TOLERANCE)%Q
         (data (initial_image ext args dims)).
Proof. unfold initial_image. exact (projected_in_range _). Qed.

Lemma snapshot_of_initial_image (dims : list nat) :
  tf_X_uint8 (tf_fix_X (initial_image ext args dims)) =
  to_uint8_image (entry0 (initial_image ext args dims)).
Proof.
  rewrite tf_fix_X_fixed by apply initial_image_in_range.
  pose proof (initial_image_in_range dims) as Hin.
  destruct (initial_image ext args dims) as [ds xs].
  unfold tf_X_uint8, to_uint8_image, entry0, ndarray_map. cbn [shape data] in *.
  f_equal. rewrite <- fmap_take. apply Forall_fmap_ext, Forall_take.
  eapply Forall_impl; [exact Hin|]. intros x [Hlo Hhi].
  apply quantize_agrees. unfold TOLERANCE in *. split; Lqa.lra.
Qed.

(** X19: in a run that gets to its loop, the snapshot of iteration 0,
    [000000.png], holds the same image as [initial_image.png]: the first
    projection changes nothing in the clipped initial image, and the two
    roundings agree on it. *)
Theorem first_snapshot_is_initial_image (src dest : ndarray Q) :
  metric args ∈ supported_metrics →
  outcome (load_rgb (images args).1) = inr src →
  outcome (load_rgb (images args).2) = inr dest →
  shape dest = shape src →
  0 ≤ steps args →
  ∃ image,
    E_imwrite (os_path_join (outdir args) "initial_image.png") image
    ∈ trace script ∧
    E_imwrite (snapshot_path args 0) image ∈ trace script.
Proof.
  intros Hmetric Hsrc Hdest Hsame Hsteps.
  destruct (script_succeeds src dest) as (h & w & c & rest & _ & ->);
    [done..|].
  exists (to_uint8_image (entry0 (initial_image ext args [1; h; w; c]%nat))).
  unfold trace at 1 3; cbn [fst]. split.
  - rewrite elem_of_app. left. rewrite !elem_of_cons. tauto.
  - rewrite elem_of_app. right.
    apply (elem_of_iteration_main_loop ext args _ _ _ _ 0); [lia|].
    rewrite iteration_checkpoint.
    + unfold trace; cbn [fst]. rewrite elem_of_app. left.
      apply elem_of_cons. right. apply elem_of_cons. left.
      f_equal. symmetry. apply snapshot_of_initial_image.
    + apply bool_decide_eq_true, elem_of_checkpoints. left.
      apply zero_in_checkpoints_prefix.
Qed.

End Outcome.

(** ** No output file is written twice *)

Lemma snapshot_save_distinct (args : Args) (i j : Z) :
  0 ≤ i → snapshot_path args i ≠ save_path args j.
Proof.
  intros Hi Heq. unfold snapshot_path, save_path in Heq.
  apply os_path_join_inj in Heq; [|by apply format_06d_relative|done].
  pose proof (read_format_06d i Hi) as Hread.
  destruct (format_06d i) as [|c s]; [done|].
  injection Heq as -> _.
  unfold read_decimal in Hread. simpl in Hread.
  by destruct (NilEmpty.uint_of_string s).
Qed.

Lemma save_path_not_fixed (args : Args) (j : Z) (name : string) :
  name ∈ ["src_image"; "dest_image"; "initial_image"] →
  save_path args j ≠ os_path_join (outdir args) (name +:+ ".png").
Proof.
  rewrite !elem_of_cons, elem_of_nil.
  intros [->|[->|[->|[]]]] Heq; unfold save_path in Heq;
    apply os_path_join_inj in Heq; done.
Qed.

Lemma fixed_paths_distinct (args : Args) :
  NoDup [os_path_join (outdir args) "src_image.png";
         os_path_join (outdir args) "dest_image.png";
         os_path_join (outdir args) "initial_image.png"].
Proof.
  apply NoDup_cons_2.
  { rewrite !not_elem_of_cons.
    split; [|split; [|apply not_elem_of_nil]];
      intros Heq; apply os_path_join_inj in Heq; done. }
  apply NoDup_cons_2; [|apply NoDup_singleton].
  rewrite list_elem_of_singleton.
  intros Heq; apply os_path_join_inj in Heq; done.
Qed.

Section Files.

Context (ext : Extern) (args : Args).
Context (config : metric_config) (ref1 ref2 : ndarray Q).

Local Abbreviation iteration := (iteration ext args config ref1 ref2).
Local Abbreviation main_loop := (main_loop ext args config ref1 ref2).
Local Abbreviation variables_at := (variables_at ext args config ref1 ref2).
Local Abbreviation snapshot_path := (snapshot_path args).
Local Abbreviation save_path := (save_path args).

Lemma written_files_iteration (i : Z) (v : variables ext) :
  written_files (trace (iteration i v)) =
  if is_checkpoint (steps args) i
  then snapshot_path i ::
       (if bool_decide (i `mod` 10000 = 0) then [save_path i] else [])
  else [].
Proof.
  destruct (is_checkpoint (steps args) i) eqn:Hcp.
  - rewrite iteration_checkpoint by done. unfold trace; cbn [fst].
    by case_bool_decide.
  - by rewrite iteration_plain.
Qed.

Lemma elem_of_written_files_for_each (a n : nat) (v0 : variables ext)
    (path : string) :
  path ∈ written_files
           (trace (for_each (Z.of_nat <$> seq a n) iteration
                     (variables_at a v0))) →
  ∃ k, (a ≤ k)%nat ∧
       (path = snapshot_path (Z.of_nat k) ∨ path = save_path (Z.of_nat k)).
Proof.
  unfold written_files. rewrite list_elem_of_omap.
  intros (ev & Hev & Hpath).
  apply elem_of_for_each_seq in Hev as (k & Hk & Hev).
  exists k. split; [lia|].
  apply elem_of_iteration in Hev as (_ & [->|[->|[_ ->]]]);
    simplify_eq; tauto.
Qed.

Lemma NoDup_written_files_for_each (a n : nat) (v0 : variables ext) :
  NoDup (written_files
           (trace (for_each (Z.of_nat <$> seq a n) iteration
                     (variables_at a v0)))).
Proof.
  revert a. induction n as [|n IH]; intros a; [apply NoDup_nil_2|].
  rewrite for_each_seq_trace. unfold written_files. rewrite omap_app.
  fold (written_files (trace (iteration (Z.of_nat a) (variables_at a v0)))).
  fold (written_files
          (trace (for_each (Z.of_nat <$> seq (S a) n) iteration
                    (variables_at (S a) v0)))).
  apply NoDup_app. split; [|split; [|apply IH]].
  - rewrite written_files_iteration.
    destruct (is_checkpoint _ _); [|apply NoDup_nil_2].
    case_bool_decide; [|apply NoDup_singleton].
    apply NoDup_cons_2; [|apply NoDup_singleton].
    rewrite list_elem_of_singleton. apply snapshot_save_distinct. lia.
  - intros path Hhere (k & Hk & Hthere)%elem_of_written_files_for_each.
    rewrite written_files_iteration in Hhere.
    destruct (is_checkpoint _ _); [|by apply elem_of_nil in Hhere].
    assert (path = snapshot_path (Z.of_nat a) ∨ path = save_path (Z.of_nat a))
      as Ha.
    { revert Hhere. case_bool_decide;
        rewrite !elem_of_cons, elem_of_nil; tauto. }
    destruct Ha as [-> | ->], Hthere as [Heq|Heq].
    + apply snapshot_path_inj in Heq; lia.
    + by apply snapshot_save_distinct in Heq; [|lia].
    + symmetry in Heq. by apply snapshot_save_distinct in Heq; [|lia].
    + apply save_path_inj in Heq; lia.
Qed.

Lemma NoDup_written_files_main_loop (v0 : variables ext) :
  NoDup (written_files (trace (main_loop v0))).
Proof.
  unfold main_loop. rewrite py_range_from_zero.
  apply (NoDup_written_files_for_each 0).
Qed.

Lemma elem_of_written_files_main_loop (v0 : variables ext) (path : string) :
  path ∈ written_files (trace (main_loop v0)) →
  ∃ i, 0 ≤ i ∧ (path = snapshot_path i ∨ path = save_path i).
Proof.
  unfold main_loop. rewrite py_range_from_zero.
  intros (k & _ & Hk)%(elem_of_written_files_for_each 0).
  exists (Z.of_nat k). split; [lia|done].
Qed.

Lemma written_files_for_each (a n : nat) (v0 : variables ext) :
  written_files
    (trace (for_each (Z.of_nat <$> seq a n) iteration (variables_at a v0))) =
  concat ((λ i, if is_checkpoint (steps args) i
                then snapshot_path i ::
                     (if bool_decide (i `mod` 10000 = 0) then [save_path i]
                      else [])
                else []) <$> (Z.of_nat <$> seq a n)).
Proof.
  revert a. induction n as [|n IH]; intros a; [done|].
  rewrite for_each_seq_trace. unfold written_files. rewrite omap_app.
  fold (written_files (trace (iteration (Z.of_nat a) (variables_at a v0)))).
  fold (written_files
          (trace (for_each (Z.of_nat <$> seq (S a) n) iteration
                    (variables_at (S a) v0)))).
  rewrite written_files_iteration, IH. done.
Qed.

(** X21: the files the loop writes, in the order it writes them: for each
    index 0, 1, .., total_steps in turn, nothing if the index is not a
    checkpoint, else its snapshot, followed by its raw save if the index is
    a multiple of 10000. *)
Theorem written_files_of_the_loop (v0 : variables ext) :
  written_files (trace (main_loop v0)) =
  concat ((λ i, if is_checkpoint (steps args) i
                then snapshot_path i ::
                     (if bool_decide (i `mod` 10000 = 0) then [save_path i]
                      else [])
                else []) <$> py_range 0 (1 + steps args) 1).
Proof.
  unfold main_loop. rewrite py_range_from_zero.
  apply (written_files_for_each 0).
Qed.

End Files.

(** X20: a run never writes the same file twice: the paths of the files
    the script writes, the three start-up images, the snapshots and the raw
    saves, are pairwise distinct, so no output overwrites another. *)
Theorem no_file_is_written_twice (ext : Extern) (args : Args) :
  NoDup (written_files (trace (script ext args))).
Proof.
  destruct (script_cases ext args)
    as [(e & _ & [-> | ->])
       |(src & dest & h & w & c & rest & _ & _ & _ & _ & _ & ->)];
    [apply NoDup_nil_2..|].
  unfold trace at 1; cbn [fst]. unfold written_files. rewrite omap_app.
  cbn [omap list_omap].
  fold (written_files
          (trace (main_loop ext args (calibrated args w c) (expand_dims0 src)
                    (expand_dims0 dest)
                    (initial_variables ext args [1; h; w; c]%nat)))).
  apply NoDup_app. split; [apply fixed_paths_distinct|].
  split; [|apply NoDup_written_files_main_loop].
  intros path Hfixed (i & Hi & Hloop)%elem_of_written_files_main_loop.
  assert (∃ name, name ∈ ["src_image"; "dest_image"; "initial_image"] ∧
                  path = os_path_join (outdir args) (name +:+ ".png"))
    as (name & Hname & ->).
  { revert Hfixed. rewrite !elem_of_cons, elem_of_nil.
    intros [->|[->|[->|[]]]];
      [exists "src_image"|exists "dest_image"|exists "initial_image"];
      (split; [rewrite !elem_of_cons; tauto|done]). }
  destruct Hloop as [Heq|Heq]; symmetry in Heq.
  - by apply snapshot_path_not_fixed in Heq.
  - by apply save_path_not_fixed in Heq.
Qed.

(** ** The cut to three channels and the file names *)

Lemma take_add_drop {A} (n m : nat) (l : list A) :
  take (n + m) l = take n l ++ take m (drop n l).
Proof.
  revert l. induction n as [|n IH]; intros [|x l]; simpl; try done.
  - by rewrite take_nil.
  - by rewrite IH.
Qed.

Lemma take_of_blocks_all {A} (n block : nat) (l : list A) :
  take_of_blocks n block block l = take (n * block) l.
Proof.
  revert l. induction n as [|n IH]; intros l; [done|].
  simpl. rewrite IH, take_take, Nat.min_id. by rewrite take_add_drop.
Qed.

(** X22: an image that has at most three channels and as many elements as
    its shape says passes the cut [[:,:,0:3]] unchanged. *)
Theorem slice_channels_keeps_rgb {A} (a : ndarray A) (h w c : nat)
    (rest : list nat) :
  shape a = h :: w :: c :: rest →
  (c ≤ 3)%nat →
  length (data a) = product (shape a) →
  slice_channels a = inr a.
Proof.
  destruct a as [dims xs]. cbn [shape data]. intros -> Hc Hlen.
  unfold slice_channels. cbn [shape data]. rewrite Nat.min_l by done.
  rewrite take_of_blocks_all, take_ge; [done|].
  rewrite Hlen. simpl. lia.
Qed.

Lemma slice_channels_keeps_rgb_witness :
  shape (Toy.constant_image [2; 4; 3]%nat (1 # 4)) = [2; 4; 3]%nat ∧
  (3 ≤ 3)%nat ∧
  length (data (Toy.constant_image [2; 4; 3]%nat (1 # 4))) =
    product (shape (Toy.constant_image [2; 4; 3]%nat (1 # 4))) ∧
  slice_channels (Toy.constant_image [2; 4; 3]%nat (1 # 4)) =
    inr (Toy.constant_image [2; 4; 3]%nat (1 # 4)).
Proof.
  split; [reflexivity|]. split; [lia|]. split; [reflexivity|].
  exact (slice_channels_keeps_rgb (Toy.constant_image [2; 4; 3]%nat (1 # 4))
           2%nat 4%nat 3%nat [] eq_refl (le_n 3) eq_refl).
Defined.

(** X23: the zero-padded number of a file name can be read back: for
    [i >= 0], [{:06d}] yields at least six characters that parse to [i];
    hence different iterations get different snapshot and save paths, and
    a snapshot path is never a save path. *)
Theorem file_names_read_back (args : Args) (i j : Z) :
  0 ≤ i → 0 ≤ j →
  read_decimal (format_06d i) = Some (Z.to_N i) ∧
  (6 ≤ String.length (format_06d i))%nat ∧
  (snapshot_path args i = snapshot_path args j → i = j) ∧
  (save_path args i = save_path args j → i = j) ∧
  snapshot_path args i ≠ save_path args j.
Proof.
  intros Hi Hj.
  split; [by apply read_format_06d|].
  split; [|split; [by apply snapshot_path_inj|
           split; [by apply save_path_inj|by apply snapshot_save_distinct]]].
  unfold format_06d, zero_pad. destruct (Z.ltb_spec i 0) as [|_]; [lia|].
  generalize (decimal (Z.to_N i)). intros d.
  assert (∀ k s, String.length (zeros k +:+ s) = (k + String.length s)%nat)
    as Hlen.
  { intros k s. induction k as [|k IH]; [done|]. simpl. by rewrite IH. }
  rewrite Hlen. lia.
Qed.

Lemma file_names_read_back_witness :
  0 ≤ 1500 ∧ 0 ≤ 20000 ∧
  read_decimal (format_06d 1500) = Some (Z.to_N 1500) ∧
  (6 ≤ String.length (format_06d 1500))%nat ∧
  (snapshot_path Toy.args_2x4 1500 = snapshot_path Toy.args_2x4 20000 →
   1500 = 20000) ∧
  (save_path Toy.args_2x4 1500 = save_path Toy.args_2x4 20000 →
   1500 = 20000) ∧
  snapshot_path Toy.args_2x4 1500 ≠ save_path Toy.args_2x4 20000.
Proof.
  split; [lia|]. split; [lia|].
  apply (file_names_read_back Toy.args_2x4 1500 20000); lia.
Defined.

Lemma take_of_blocks_length {A} (n block keep : nat) (l : list A) :
  (keep ≤ block)%nat → (n * block ≤ length l)%nat →
  length (take_of_blocks n block keep l) = (n * keep)%nat.
Proof.
  intros Hkeep. revert l. induction n as [|n IH]; intros l Hlen; [done|].
  simpl in *. rewrite length_app, take_take, length_take, IH.
  - lia.
  - rewrite length_drop. lia.
Qed.

Lemma take_of_blocks_lookup {A} (n block keep p q : nat) (l : list A) :
  (keep ≤ block)%nat → (n * block ≤ length l)%nat →
  (p < n)%nat → (q < keep)%nat →
  take_of_blocks n block keep l !! (p * keep + q)%nat =
  l !! (p * block + q)%nat.
Proof.
  intros Hkeep. revert l p.
  induction n as [|n IH]; intros l p Hlen Hp Hq; [lia|].
  simpl in Hlen. cbn [take_of_blocks].
  assert (length (take keep (take block l)) = keep) as Hfirst.
  { rewrite take_take, length_take. lia. }
  destruct p as [|p].
  - simpl. rewrite lookup_app_l by lia.
    rewrite take_take, lookup_take_lt by lia. done.
  - rewrite lookup_app_r by lia. rewrite Hfirst.
    replace (S p * keep + q - keep)%nat with (p * keep + q)%nat by lia.
    rewrite IH; [|rewrite length_drop; lia|lia|done].
    rewrite lookup_drop. f_equal. lia.
Qed.

(** X24: the cut [[:,:,0:3]] of an array with at least three axes and as
    many elements as its shape says keeps, for every position of the first
    two axes, the leading min(c, 3) entries of the third axis, in order:
    the result has shape (h, w, min(c, 3), ..), as many elements as that
    shape says, and element [q] of block [p] is element [q] of block [p]
    of the input. *)
Theorem slice_channels_keeps_leading_channels {A} (a : ndarray A)
    (h w c : nat) (rest : list nat) :
  shape a = h :: w :: c :: rest →
  length (data a) = product (shape a) →
  ∃ r, slice_channels a = inr r ∧
       shape r = h :: w :: Nat.min c 3 :: rest ∧
       length (data r) = product (shape r) ∧
       ∀ p q, (p < h * w)%nat → (q < Nat.min c 3 * product rest)%nat →
              data r !! (p * (Nat.min c 3 * product rest) + q)%nat =
              data a !! (p * (c * product rest) + q)%nat.
Proof.
  destruct a as [dims xs]. cbn [shape data]. intros -> Hlen.
  unfold slice_channels. cbn [shape data].
  eexists. split; [reflexivity|]. cbn [shape data].
  assert (Nat.min c 3 * product rest ≤ c * product rest)%nat as Hkeep
    by (apply Nat.mul_le_mono_r; lia).
  assert (h * w * (c * product rest) ≤ length xs)%nat as Hall
    by (rewrite Hlen; simpl; lia).
  split; [done|]. split.
  - rewrite take_of_blocks_length by done. simpl. lia.
  - intros p q Hp Hq. by apply take_of_blocks_lookup.
Qed.

Lemma slice_channels_keeps_leading_channels_witness :
  shape (NdArray [1; 2; 4]%nat [10; 11; 12; 13; 20; 21; 22; 23]) =
    [1; 2; 4]%nat ∧
  length (data (NdArray [1; 2; 4]%nat [10; 11; 12; 13; 20; 21; 22; 23])) =
    product (shape (NdArray [1; 2; 4]%nat [10; 11; 12; 13; 20; 21; 22; 23])) ∧
  ∃ r, slice_channels (NdArray [1; 2; 4]%nat [10; 11; 12; 13; 20; 21; 22; 23])
         = inr r ∧
       shape r = [1; 2; Nat.min 4 3]%nat ∧
       length (data r) = product (shape r) ∧
       ∀ p q, (p < 1 * 2)%nat → (q < Nat.min 4 3 * product [])%nat →
              data r !! (p * (Nat.min 4 3 * product []) + q)%nat =
              data (NdArray [1; 2; 4]%nat [10; 11; 12; 13; 20; 21; 22; 23])
                !! (p * (4 * product []) + q)%nat.
Proof.
  split; [reflexivity|]. split; [reflexivity|].
  exact (slice_channels_keeps_leading_channels
           (NdArray [1; 2; 4]%nat [10; 11; 12; 13; 20; 21; 22; 23])
           1%nat 2%nat 4%nat [] eq_refl eq_refl).
Defined.

(** ** The further properties on the small instances *)

Lemma supported_elpips_vgg : "elpips_vgg" ∈ supported_metrics.
Proof. unfold supported_metrics. apply elem_of_cons. by left. Qed.

Lemma png_load_and_encode_round_trip_witness :
  lower (os_path_splitext Cases.ext_png "x.PNG").2 ∈ [".png"; ".jpg"] ∧
  imageio_imread Cases.ext_png "x.PNG" =
    inr (NdArray [1; 1; 3]%nat [0; 128; 255]) ∧
  Forall (λ v, 0 ≤ v ≤ 255) (data (NdArray [1; 1; 3]%nat [0; 128; 255])) ∧
  ∃ a, load_image Cases.ext_png "x.PNG" = inr a ∧
       shape a = shape (NdArray [1; 1; 3]%nat [0; 128; 255]) ∧
       Forall (λ x, 0 <= x <= 1)%Q (data a) ∧
       to_uint8_image a = NdArray [1; 1; 3]%nat [0; 128; 255].
Proof.
  assert (lower (os_path_splitext Cases.ext_png "x.PNG").2
          ∈ [".png"; ".jpg"]) as Hext.
  { apply elem_of_cons. by left. }
  assert (Forall (λ v, 0 ≤ v ≤ 255)
            (data (NdArray [1; 1; 3]%nat [0; 128; 255]))) as Hraw.
  { simpl. repeat constructor; lia. }
  split; [exact Hext|]. split; [reflexivity|]. split; [exact Hraw|].
  exact (png_load_and_encode_round_trip Cases.ext_png "x.PNG"
           (NdArray [1; 1; 3]%nat [0; 128; 255]) Hext eq_refl Hraw).
Defined.

Lemma printed_rates_never_increase_witness :
  (0 < learning_rate Cases.args_two_steps)%R ∧
  0 ≤ tf_step Toy.ext Toy.v0 ∧
  tf_step Toy.ext Toy.v0 + 1 + 1 < 2 ^ 31 ∧
  0 ≤ 1 ∧
  E_print_status 0 (steps Cases.args_two_steps)
    (V_float (loss_of Toy.ext Toy.config Toy.ref1 Toy.ref2 Toy.v0
                (projected Toy.ext Toy.v0)))
    (V_rate (rate_of Toy.ext Cases.args_two_steps Toy.v0))
  ∈ trace (main_loop Toy.ext Cases.args_two_steps Toy.config Toy.ref1
             Toy.ref2 Toy.v0) ∧
  E_print_status 1 (steps Cases.args_two_steps)
    (V_float
       (loss_of Toy.ext Toy.config Toy.ref1 Toy.ref2
          (variables_at Toy.ext Cases.args_two_steps Toy.config Toy.ref1
             Toy.ref2 1 Toy.v0)
          (projected Toy.ext
             (variables_at Toy.ext Cases.args_two_steps Toy.config Toy.ref1
                Toy.ref2 1 Toy.v0))))
    (V_rate
       (rate_of Toy.ext Cases.args_two_steps
          (variables_at Toy.ext Cases.args_two_steps Toy.config Toy.ref1
             Toy.ref2 1 Toy.v0)))
  ∈ trace (main_loop Toy.ext Cases.args_two_steps Toy.config Toy.ref1
             Toy.ref2 Toy.v0) ∧
  (rate_of Toy.ext Cases.args_two_steps
     (variables_at Toy.ext Cases.args_two_steps Toy.config Toy.ref1
        Toy.ref2 1 Toy.v0)
   <= rate_of Toy.ext Cases.args_two_steps Toy.v0)%R.
Proof.
  assert (0 < learning_rate Cases.args_two_steps)%R as Hrate by (simpl; lra).
  assert (0 ≤ tf_step Toy.ext Toy.v0) as Hstep by (simpl; lia).
  assert (0 ≤ 1) as H01 by lia.
  assert (∀ i, 0 ≤ i ≤ 1 →
    E_print_status i (steps Cases.args_two_steps)
      (V_float
         (loss_of Toy.ext Toy.config Toy.ref1 Toy.ref2
            (variables_at Toy.ext Cases.args_two_steps Toy.config Toy.ref1
               Toy.ref2 (Z.to_nat i) Toy.v0)
            (projected Toy.ext
               (variables_at Toy.ext Cases.args_two_steps Toy.config
                  Toy.ref1 Toy.ref2 (Z.to_nat i) Toy.v0))))
      (V_rate
         (rate_of Toy.ext Cases.args_two_steps
            (variables_at Toy.ext Cases.args_two_steps Toy.config Toy.ref1
               Toy.ref2 (Z.to_nat i) Toy.v0)))
    ∈ trace (main_loop Toy.ext Cases.args_two_steps Toy.config Toy.ref1
               Toy.ref2 Toy.v0)) as Hin.
  { intros i Hi.
    apply (elem_of_iteration_main_loop Toy.ext Cases.args_two_steps Toy.config
             Toy.ref1 Toy.ref2 Toy.v0 i); [simpl; lia|].
    rewrite iteration_checkpoint.
    - unfold trace; cbn [fst]. rewrite elem_of_app. left.
      apply elem_of_cons. by left.
    - apply bool_decide_eq_true, elem_of_checkpoints. left.
      unfold checkpoints_prefix. rewrite !elem_of_cons. lia. }
  pose proof (Hin 0 ltac:(lia)) as Hin0. pose proof (Hin 1 ltac:(lia)) as Hin1.
  assert (tf_step Toy.ext Toy.v0 + 1 + 1 < 2 ^ 31) as Hbound by (simpl; lia).
  split; [exact Hrate|]. split; [exact Hstep|]. split; [exact Hbound|].
  split; [exact H01|]. split; [exact Hin0|]. split; [exact Hin1|].
  exact (printed_rates_never_increase Toy.ext Cases.args_two_steps Toy.config
           Toy.ref1 Toy.ref2 Toy.v0 0 1 _ _ _ _ Hrate Hstep Hbound H01
           Hin0 Hin1).
Defined.

Lemma main_loop_counts_iterations_witness :
  - 2 ^ 31 ≤ tf_step Toy.ext Toy.v0 ∧
  tf_step Toy.ext Toy.v0 + Z.max 0 (1 + steps Cases.args_two_steps) < 2 ^ 31 ∧
  (∃ v,
     outcome (main_loop Toy.ext Cases.args_two_steps Toy.config Toy.ref1
                Toy.ref2 Toy.v0) = inr v ∧
     tf_step Toy.ext v =
       tf_step Toy.ext Toy.v0 + Z.max 0 (1 + steps Cases.args_two_steps) ∧
     - 2 ^ 31 ≤ tf_step Toy.ext v < 2 ^ 31) ∧
  (steps Cases.args_two_steps < 0 →
   main_loop Toy.ext Cases.args_two_steps Toy.config Toy.ref1 Toy.ref2
     Toy.v0 = ([], inr Toy.v0)).
Proof.
  assert (- 2 ^ 31 ≤ tf_step Toy.ext Toy.v0) as Hlo by (simpl; lia).
  assert (tf_step Toy.ext Toy.v0 + Z.max 0 (1 + steps Cases.args_two_steps)
          < 2 ^ 31) as Hhi by (simpl; lia).
  split; [exact Hlo|]. split; [exact Hhi|].
  exact (main_loop_counts_iterations Toy.ext Cases.args_two_steps Toy.config
           Toy.ref1 Toy.ref2 Toy.v0 Hlo Hhi).
Defined.

Lemma snapshots_exactly_at_checkpoints_witness :
  0 ≤ 2 ∧
  ((∃ image,
      E_imwrite (snapshot_path Cases.args_two_steps 2) image
      ∈ trace (main_loop Toy.ext Cases.args_two_steps Toy.config Toy.ref1
                 Toy.ref2 Toy.v0)) ↔
   2 ≤ steps Cases.args_two_steps ∧ 2 ∈ checkpoints (steps Cases.args_two_steps)).
Proof.
  split; [lia|].
  apply (snapshots_exactly_at_checkpoints Toy.ext Cases.args_two_steps
           Toy.config Toy.ref1 Toy.ref2 Toy.v0 2). lia.
Defined.

Lemma saves_exactly_at_multiples_of_10000_witness :
  0 ≤ 0 ∧
  ((∃ arr,
      E_np_save (save_path Cases.args_two_steps 0) arr
      ∈ trace (main_loop Toy.ext Cases.args_two_steps Toy.config Toy.ref1
                 Toy.ref2 Toy.v0)) ↔
   0 ≤ steps Cases.args_two_steps ∧ 0 `mod` 10000 = 0).
Proof.
  split; [lia|].
  apply (saves_exactly_at_multiples_of_10000 Toy.ext Cases.args_two_steps
           Toy.config Toy.ref1 Toy.ref2 Toy.v0 0). lia.
Defined.

Lemma unsupported_metric_is_fatal_witness :
  (metric Cases.args_bad_metric ∉ supported_metrics) ∧
  script Toy.ext Cases.args_bad_metric =
  ([], inl (Exception "Unsupported metric.")).
Proof.
  assert (metric Cases.args_bad_metric ∉ supported_metrics) as Hmetric.
  { unfold supported_metrics. rewrite !not_elem_of_cons.
    repeat split; try discriminate. apply not_elem_of_nil. }
  split; [exact Hmetric|].
  exact (unsupported_metric_is_fatal Toy.ext Cases.args_bad_metric Hmetric).
Defined.

Lemma load_failure_is_fatal_witness :
  metric Toy.args_2x4 ∈ supported_metrics ∧
  (outcome (load_rgb Cases.ext_unreadable (images Toy.args_2x4).1) =
     inl (IOError "a.npy") ∨
   (∃ src,
      outcome (load_rgb Cases.ext_unreadable (images Toy.args_2x4).1) =
        inr src ∧
      outcome (load_rgb Cases.ext_unreadable (images Toy.args_2x4).2) =
        inl (IOError "a.npy"))) ∧
  script Cases.ext_unreadable Toy.args_2x4 =
  ([E_makedirs (outdir Toy.args_2x4)], inl (IOError "a.npy")).
Proof.
  assert (outcome (load_rgb Cases.ext_unreadable (images Toy.args_2x4).1) =
            inl (IOError "a.npy") ∨
          (∃ src,
             outcome (load_rgb Cases.ext_unreadable (images Toy.args_2x4).1) =
               inr src ∧
             outcome (load_rgb Cases.ext_unreadable (images Toy.args_2x4).2) =
               inl (IOError "a.npy"))) as Hload.
  { left. reflexivity. }
  split; [exact supported_elpips_vgg|]. split; [exact Hload|].
  exact (load_failure_is_fatal Cases.ext_unreadable Toy.args_2x4
           (IOError "a.npy") supported_elpips_vgg Hload).
Defined.

Lemma unknown_extension_is_fatal_witness :
  metric Toy.args_2x4 ∈ supported_metrics ∧
  (lower (os_path_splitext Cases.ext_bmp (images Toy.args_2x4).1).2
     ∉ [".npy"; ".png"; ".jpg"]) ∧
  script Cases.ext_bmp Toy.args_2x4 =
  ([E_makedirs (outdir Toy.args_2x4)],
   inl (Exception "Unknown image type.")).
Proof.
  assert (lower (os_path_splitext Cases.ext_bmp (images Toy.args_2x4).1).2
          ∉ [".npy"; ".png"; ".jpg"]) as Hext.
  { rewrite !not_elem_of_cons.
    repeat split; try discriminate. apply not_elem_of_nil. }
  split; [exact supported_elpips_vgg|]. split; [exact Hext|].
  exact (unknown_extension_is_fatal Cases.ext_bmp Toy.args_2x4
           supported_elpips_vgg Hext).
Defined.

Lemma too_few_axes_is_fatal_witness :
  metric Toy.args_2x4 ∈ supported_metrics ∧
  load_image Cases.ext_gray (images Toy.args_2x4).1 =
    inr (Toy.constant_image [2; 2]%nat (1 # 2)) ∧
  (length (shape (Toy.constant_image [2; 2]%nat (1 # 2))) < 3)%nat ∧
  script Cases.ext_gray Toy.args_2x4 =
  ([E_makedirs (outdir Toy.args_2x4)], inl IndexError).
Proof.
  assert (length (shape (Toy.constant_image [2; 2]%nat (1 # 2))) < 3)%nat
    as Hrank by (simpl; lia).
  split; [exact supported_elpips_vgg|]. split; [reflexivity|].
  split; [exact Hrank|].
  exact (too_few_axes_is_fatal Cases.ext_gray Toy.args_2x4
           (Toy.constant_image [2; 2]%nat (1 # 2))
           supported_elpips_vgg eq_refl Hrank).
Defined.

Lemma first_snapshot_is_initial_image_witness :
  metric Toy.args_2x4 ∈ supported_metrics ∧
  outcome (load_rgb Toy.ext (images Toy.args_2x4).1) =
    inr (Toy.constant_image [2; 4; 3]%nat (1 # 4)) ∧
  outcome (load_rgb Toy.ext (images Toy.args_2x4).2) =
    inr (Toy.constant_image [2; 4; 3]%nat (3 # 4)) ∧
  shape (Toy.constant_image [2; 4; 3]%nat (3 # 4)) =
    shape (Toy.constant_image [2; 4; 3]%nat (1 # 4)) ∧
  0 ≤ steps Toy.args_2x4 ∧
  ∃ image,
    E_imwrite (os_path_join (outdir Toy.args_2x4) "initial_image.png") image
    ∈ trace (script Toy.ext Toy.args_2x4) ∧
    E_imwrite (snapshot_path Toy.args_2x4 0) image
    ∈ trace (script Toy.ext Toy.args_2x4).
Proof.
  assert (0 ≤ steps Toy.args_2x4) as Hsteps by (simpl; lia).
  split; [exact supported_elpips_vgg|]. split; [reflexivity|].
  split; [reflexivity|]. split; [reflexivity|]. split; [exact Hsteps|].
  exact (first_snapshot_is_initial_image Toy.ext Toy.args_2x4
           (Toy.constant_image [2; 4; 3]%nat (1 # 4))
           (Toy.constant_image [2; 4; 3]%nat (3 # 4))
           supported_elpips_vgg eq_refl eq_refl eq_refl Hsteps).
Defined.

(** A run of two steps writes the three start-up images, the snapshot and
    the raw save of iteration 0, and the snapshots of iterations 1 and 2;
    a run with a negative step count writes the start-up images only. *)
Example files_of_short_runs :
  written_files (trace (script Toy.ext Cases.args_two_steps)) =
    ["out/src_image.png"; "out/dest_image.png"; "out/initial_image.png";
     "out/000000.png"; "out/save_000000.npy"; "out/000001.png";
     "out/000002.png"] ∧
  written_files (trace (script Toy.ext Cases.args_negative)) =
    ["out/src_image.png"; "out/dest_image.png"; "out/initial_image.png"].
Proof. split; by vm_compute. Qed.
